(** * FreshCast AI: query router and inventory aggregation

    A shallow embedding of [src/router.py] (the rule-based query router)
    and of the arithmetic of [src/forecasting/model.py] (production
    recommendations and raw-material totals), with the properties of the
    specification stated and proved over it; then of the forecaster
    object, of [src/llm/assistant.py] and of the endpoints of
    [src/api/main.py], with further properties of the code.

    Conventions of the embedding.
    - A Python [str] is a [string]; a character is a code point below 256,
      on which [str.lower], the regex classes [\d], [\s] and [.] are
      written out exactly.
    - The [re] patterns of the router are terms of a small regex syntax,
      run by a backtracking matcher with the priorities of Python's
      engine (leftmost start, alternatives left to right, greedy and lazy
      repetition) and with capture groups.
    - [int(...)] is fallible: CPython refuses decimal strings longer than
      [sys.get_int_max_str_digits()] digits (4300 by default, 0 switches
      the guard off); the limit is a parameter of the functions that reach
      [int].
    - A numpy [float64] is a [spec_float] of the Standard Library with the
      binary64 operations [SFadd], [SFsub], [SFmul] and [SFdiv]. *)

From Stdlib Require Import ZArith QArith List String Ascii Bool Lia Permutation.
From Stdlib Require Import SpecFloat.
Import ListNotations.

Local Open Scope string_scope.
Local Open Scope Z_scope.

(** ** Python strings *)

Module Str.

Definition code (c : ascii) : N := N_of_ascii c.

(** [str.lower] on one code point below 256: the ASCII capitals and the
    Latin-1 capitals U+00C0..U+00DE (U+00D7, the multiplication sign,
    is not a letter) move up by 32. *)
Definition lower_char (c : ascii) : ascii :=
  let n := code c in
  if ((65 <=? n) && (n <=? 90))%N
     || ((192 <=? n) && (n <=? 222) && negb (n =? 215))%N
  then ascii_of_N (n + 32) else c.

Fixpoint lower (s : string) : string :=
  match s with
  | EmptyString => EmptyString
  | String c s' => String (lower_char c) (lower s')
  end.

(** [s.startswith(p)] *)
Fixpoint startswith (p s : string) : bool :=
  match p, s with
  | EmptyString, _ => true
  | String a p', String b s' => Ascii.eqb a b && startswith p' s'
  | String _ _, EmptyString => false
  end.

(** [sub in s] *)
Fixpoint contains (sub s : string) : bool :=
  startswith sub s ||
  match s with
  | EmptyString => false
  | String _ s' => contains sub s'
  end.

(** [s.replace(a, b)] for one-character [a] and [b] *)
Fixpoint replace_char (a b : ascii) (s : string) : string :=
  match s with
  | EmptyString => EmptyString
  | String c s' =>
      String (if Ascii.eqb c a then b else c) (replace_char a b s')
  end.

Definition is_ascii_lower (c : ascii) : bool :=
  ((97 <=? code c) && (code c <=? 122))%N.
Definition is_ascii_upper (c : ascii) : bool :=
  ((65 <=? code c) && (code c <=? 90))%N.
Definition upper_ascii (c : ascii) : ascii :=
  if is_ascii_lower c then ascii_of_N (code c - 32) else c.

(** [str.title] on ASCII text (the router applies it to its own product
    literals only): a letter is upper-cased when the character before
    it is not a letter, lower-cased otherwise. *)
Fixpoint title_from (prev_cased : bool) (s : string) : string :=
  match s with
  | EmptyString => EmptyString
  | String c s' =>
      let cased := is_ascii_lower c || is_ascii_upper c in
      String (if prev_cased then lower_char c else upper_ascii c)
             (title_from cased s')
  end.
Definition title (s : string) : string := title_from false s.

Definition is_digit (c : ascii) : bool :=
  ((48 <=? code c) && (code c <=? 57))%N.

(** [\s] on code points below 256 *)
Definition is_space (c : ascii) : bool :=
  let n := code c in
  (((9 <=? n) && (n <=? 13)) || ((28 <=? n) && (n <=? 32))
   || (n =? 133) || (n =? 160))%N.

Fixpoint forallb (p : ascii -> bool) (s : string) : bool :=
  match s with
  | EmptyString => true
  | String c s' => p c && forallb p s'
  end.

Fixpoint take (n : nat) (s : string) : string :=
  match n, s with
  | S n', String c s' => String c (take n' s')
  | _, _ => EmptyString
  end.

End Str.

(** ** Errors *)

Inductive result (A : Type) : Type :=
| Ok (a : A)
| ValueError
| TypeError.
Arguments Ok {A} a.
Arguments ValueError {A}.
Arguments TypeError {A}.

(** [int(s)] for [s] a string of decimal digits, which is what the
    router passes; any other text is reported as [ValueError]. *)
Module PyInt.

Definition digit_value (c : ascii) : Z := Z.of_N (Str.code c) - 48.

Fixpoint value_from (acc : Z) (s : string) : Z :=
  match s with
  | EmptyString => acc
  | String c s' => value_from (10 * acc + digit_value c) s'
  end.

Definition value (s : string) : Z := value_from 0 s.

Definition of_digits (max_str_digits : nat) (s : string) : result Z :=
  match s with
  | EmptyString => ValueError
  | String _ _ =>
      if negb (Str.forallb Str.is_digit s) then ValueError
      else if (0 <? max_str_digits)%nat && (max_str_digits <? String.length s)%nat
           then ValueError
           else Ok (value s)
  end.

End PyInt.

(** ** The [re] fragment used by the router *)

Module Re.

Inductive cclass := Dot | Digit | Space.

Definition mem (c : cclass) (a : ascii) : bool :=
  match c with
  | Dot => negb (Ascii.eqb a "010"%char)
  | Digit => Str.is_digit a
  | Space => Str.is_space a
  end.

Inductive regex :=
| Lit (p : string)
| Seq (r1 r2 : regex)
| Alt (r1 r2 : regex)
| Star (c : cclass)
| StarLazy (c : cclass)
| Plus (c : cclass)
| Group (n : nat) (r : regex).

Definition captures := list (nat * string).

(** [m.group(n)]: the last text the group matched. *)
Fixpoint group (m : captures) (n : nat) : option string :=
  match m with
  | [] => None
  | (i, s) :: m' => if Nat.eqb i n then Some s else group m' n
  end.

Fixpoint lit (p s : string) : option string :=
  match p, s with
  | EmptyString, _ => Some s
  | String a p', String b s' => if Ascii.eqb a b then lit p' s' else None
  | String _ _, EmptyString => None
  end.

Section Matcher.
Context {A : Type}.

(** [c*]: as many characters as possible first, one fewer on failure *)
Fixpoint star_greedy (c : cclass) (k : string -> option A) (s : string)
  : option A :=
  match s with
  | String a s' =>
      if mem c a then
        match star_greedy c k s' with
        | Some x => Some x
        | None => k s
        end
      else k s
  | EmptyString => k s
  end.

(** [c*?]: as few characters as possible first, one more on failure *)
Fixpoint star_lazy (c : cclass) (k : string -> option A) (s : string)
  : option A :=
  match k s with
  | Some x => Some x
  | None =>
      match s with
      | String a s' => if mem c a then star_lazy c k s' else None
      | EmptyString => None
      end
  end.

(** [exec r s caps k]: match [r] at the start of [s], then run the
    continuation [k] on what is left; the first success in the
    engine's backtracking order is the answer. *)
Fixpoint exec (r : regex) (s : string) (caps : captures)
         (k : string -> captures -> option A) : option A :=
  match r with
  | Lit p =>
      match lit p s with
      | Some s' => k s' caps
      | None => None
      end
  | Seq r1 r2 => exec r1 s caps (fun s1 c1 => exec r2 s1 c1 k)
  | Alt r1 r2 =>
      match exec r1 s caps k with
      | Some x => Some x
      | None => exec r2 s caps k
      end
  | Star c => star_greedy c (fun s' => k s' caps) s
  | StarLazy c => star_lazy c (fun s' => k s' caps) s
  | Plus c =>
      match s with
      | String a s' =>
          if mem c a then star_greedy c (fun s'' => k s'' caps) s'
          else None
      | EmptyString => None
      end
  | Group n r1 =>
      exec r1 s caps
        (fun s' c' =>
           k s' ((n, Str.take (String.length s - String.length s') s) :: c'))
  end.
End Matcher.

(** [re.match(r, s)] *)
Definition match_at (r : regex) (s : string) : option captures :=
  exec r s [] (fun _ c => Some c).

(** [re.search(r, s)]: the match at the leftmost start that has one *)
Fixpoint search (r : regex) (s : string) : option captures :=
  match match_at r s with
  | Some m => Some m
  | None =>
      match s with
      | String _ s' => search r s'
      | EmptyString => None
      end
  end.

Definition found (r : regex) (s : string) : bool :=
  match search r s with Some _ => true | None => false end.

(** [p1|p2|...|pn] *)
Fixpoint alts (p : string) (rest : list string) : regex :=
  match rest with
  | [] => Lit p
  | q :: rest' => Alt (Lit p) (alts q rest')
  end.

End Re.

(** ** [router.py] *)

Inductive QueryType :=
| FORECAST_DEMAND
| INVENTORY_NEEDS
| RAW_MATERIALS
| BUSINESS_ADVICE
| SUPPLIER_INFO
| GENERAL_QUESTION.

Definition QueryType_eqb (a b : QueryType) : bool :=
  match a, b with
  | FORECAST_DEMAND, FORECAST_DEMAND
  | INVENTORY_NEEDS, INVENTORY_NEEDS
  | RAW_MATERIALS, RAW_MATERIALS
  | BUSINESS_ADVICE, BUSINESS_ADVICE
  | SUPPLIER_INFO, SUPPLIER_INFO
  | GENERAL_QUESTION, GENERAL_QUESTION => true
  | _, _ => false
  end.

(** [x in xs] for a list of query types *)
Definition QueryType_in (x : QueryType) (xs : list QueryType) : bool :=
  existsb (QueryType_eqb x) xs.

(** The dictionary [route] returns. The confidence is the decimal literal
    of the source. *)
Record RoutingDecision := {
  query_type : QueryType;
  confidence : Q;
  product : option string;
  time_period : Z;
  use_ml : bool;
  use_llm : bool;
  original_query : string
}.

Module QueryRouter.

Definition ml_keywords : list (string * list string) :=
  [ ("forecast", ["forecast"; "predict"; "prediction"; "expect"; "anticipated"]);
    ("demand", ["demand"; "need"; "sales"; "sell"; "sold"]);
    ("inventory", ["inventory"; "stock"; "produce"; "production"; "make"; "bake"]);
    ("materials", ["material"; "ingredient"; "flour"; "eggs"; "butter"; "sugar"]);
    ("quantity", ["how many"; "how much"; "quantity"; "amount"]);
    ("time", ["today"; "tomorrow"; "next week"; "this week"; "next"; "week"; "day"]) ].

Definition llm_keywords : list (string * list string) :=
  [ ("supplier", ["supplier"; "buy"; "purchase"; "vendor"; "where"; "cheap"; "price"]);
    ("advice", ["should i"; "recommend"; "suggest"; "advice"; "tips"; "help"; "how to"]);
    ("quality", ["quality"; "fresh"; "store"; "storage"; "shelf life"]);
    ("recipe", ["recipe"; "substitute"; "alternative"; "replace"]) ].

Definition products : list string :=
  [ "croissant"; "baguette"; "sourdough"; "sandwich";
    "donut"; "muffin"; "cinnamon roll"; "cinnamon_roll" ].

(** The two counting loops: one point per keyword of the table that
    occurs in the query, category after category. *)
Fixpoint count_keywords (keywords : list string) (query_lower : string)
         (score : nat) : nat :=
  match keywords with
  | [] => score
  | keyword :: rest =>
      count_keywords rest query_lower
        (if Str.contains keyword query_lower then S score else score)
  end.

Fixpoint score_table (table : list (string * list string))
         (query_lower : string) (score : nat) : nat :=
  match table with
  | [] => score
  | (_, keywords) :: rest =>
      score_table rest query_lower (count_keywords keywords query_lower score)
  end.

(** any(word in query_lower for word in words) *)
Definition any_in (words : list string) (query_lower : string) : bool :=
  existsb (fun word => Str.contains word query_lower) words.

(** how (many|much).*?(croissant|baguette|sourdough|sandwich|donut|muffin) *)
Definition pattern1 : Re.regex :=
  Re.Seq (Re.Lit "how ")
    (Re.Seq (Re.Group 1 (Re.alts "many" ["much"]))
       (Re.Seq (Re.StarLazy Re.Dot)
          (Re.Group 2
             (Re.alts "croissant"
                ["baguette"; "sourdough"; "sandwich"; "donut"; "muffin"])))).

(** what.*(do|should).*(we|i).*need *)
Definition pattern2 : Re.regex :=
  Re.Seq (Re.Lit "what")
    (Re.Seq (Re.Star Re.Dot)
       (Re.Seq (Re.Group 1 (Re.alts "do" ["should"]))
          (Re.Seq (Re.Star Re.Dot)
             (Re.Seq (Re.Group 2 (Re.alts "we" ["i"]))
                (Re.Seq (Re.Star Re.Dot) (Re.Lit "need")))))).

(** where.*(buy|find|purchase|get) *)
Definition pattern4 : Re.regex :=
  Re.Seq (Re.Lit "where")
    (Re.Seq (Re.Star Re.Dot)
       (Re.Group 1 (Re.alts "buy" ["find"; "purchase"; "get"]))).

(** (\d+)\s*(day|week|month) *)
Definition time_pattern : Re.regex :=
  Re.Seq (Re.Group 1 (Re.Plus Re.Digit))
    (Re.Seq (Re.Star Re.Space)
       (Re.Group 2 (Re.alts "day" ["week"; "month"]))).

Definition classify_lower (query_lower : string) : QueryType * Q :=
  let ml_score := score_table ml_keywords query_lower 0%nat in
  let llm_score := score_table llm_keywords query_lower 0%nat in
  if Re.found pattern1 query_lower then (FORECAST_DEMAND, 0.9%Q)
  else if Re.found pattern2 query_lower then
    if any_in ["ingredient"; "material"; "flour"; "eggs"] query_lower
    then (RAW_MATERIALS, 0.85%Q)
    else (INVENTORY_NEEDS, 0.85%Q)
  else if any_in ["production"; "inventory"; "stock"] query_lower
  then (INVENTORY_NEEDS, 0.8%Q)
  else if Re.found pattern4 query_lower then (SUPPLIER_INFO, 0.9%Q)
  else if Str.startswith "should i" query_lower
          || Str.contains "recommend" query_lower
  then (BUSINESS_ADVICE, 0.85%Q)
  else if (llm_score <? ml_score)%nat then (FORECAST_DEMAND, 0.6%Q)
  else if (ml_score <? llm_score)%nat then (BUSINESS_ADVICE, 0.6%Q)
  else (GENERAL_QUESTION, 0.5%Q).

Definition classify_query (query : string) : QueryType * Q :=
  classify_lower (Str.lower query).

(** product.replace(' ', '_').title().replace('_', '_') *)
Definition normalize (product : string) : string :=
  Str.replace_char "_"%char "_"%char
    (Str.title (Str.replace_char " "%char "_"%char product)).

Fixpoint first_product (ps : list string) (query_lower : string)
  : option string :=
  match ps with
  | [] => None
  | product :: rest =>
      if Str.contains product query_lower then Some (normalize product)
      else first_product rest query_lower
  end.

Definition extract_product (query : string) : option string :=
  first_product products (Str.lower query).

Section IntLimit.
(** [sys.get_int_max_str_digits()]; 0 means no limit. *)
Variable max_str_digits : nat.

Definition opt_eqb (o : option string) (s : string) : bool :=
  match o with Some t => String.eqb t s | None => false end.

Definition time_of_match (m : Re.captures) : result Z :=
  match Re.group m 1 with
  | None => TypeError
  | Some digits =>
      match PyInt.of_digits max_str_digits digits with
      | Ok num =>
          let unit := Re.group m 2 in
          if opt_eqb unit "day" then Ok num
          else if opt_eqb unit "week" then Ok (num * 7)
          else if opt_eqb unit "month" then Ok (num * 30)
          else Ok 7
      | ValueError => ValueError
      | TypeError => TypeError
      end
  end.

Definition extract_time_lower (query_lower : string) : result Z :=
  if Str.contains "today" query_lower then Ok 1
  else if Str.contains "tomorrow" query_lower then Ok 1
  else if Str.contains "next week" query_lower
          || Str.contains "this week" query_lower then Ok 7
  else if Str.contains "next month" query_lower then Ok 30
  else
    match Re.search time_pattern query_lower with
    | Some m => time_of_match m
    | None => Ok 7
    end.

Definition extract_time_period (query : string) : result Z :=
  extract_time_lower (Str.lower query).

Definition route (query : string) : result RoutingDecision :=
  let '(qt, conf) := classify_query query in
  let prod := extract_product query in
  match extract_time_period query with
  | ValueError => ValueError
  | TypeError => TypeError
  | Ok days =>
      let ml := QueryType_in qt [FORECAST_DEMAND; INVENTORY_NEEDS; RAW_MATERIALS] in
      let llm := QueryType_in qt [BUSINESS_ADVICE; SUPPLIER_INFO; GENERAL_QUESTION] in
      Ok {| query_type := qt;
            confidence := conf;
            product := prod;
            time_period := days;
            use_ml := ml;
            use_llm := llm;
            original_query := query |}
  end.
End IntLimit.

End QueryRouter.


(** ** Lemmas on strings *)

Module StrFacts.
Import Str.

Lemma app_assoc (a b c : string) : (a ++ b) ++ c = a ++ (b ++ c).
Proof. induction a as [|x a IH]; simpl; [reflexivity | now rewrite IH]. Qed.

Lemma app_nil_r (a : string) : a ++ "" = a.
Proof. induction a as [|x a IH]; simpl; [reflexivity | now rewrite IH]. Qed.

Lemma length_app (a b : string) :
  String.length (a ++ b) = (String.length a + String.length b)%nat.
Proof. induction a as [|x a IH]; simpl; [reflexivity | now rewrite IH]. Qed.

Lemma startswith_app (p s : string) : startswith p (p ++ s) = true.
Proof.
  induction p as [|x p IH]; simpl; [reflexivity|].
  now rewrite Ascii.eqb_refl, IH.
Qed.

Lemma startswith_split (p s : string) :
  startswith p s = true -> exists t, s = p ++ t.
Proof.
  revert s; induction p as [|x p IH]; intros s H.
  - now exists s.
  - destruct s as [|y s]; simpl in H; [discriminate|].
    apply andb_true_iff in H as [Hxy Hp].
    apply Ascii.eqb_eq in Hxy; subst y.
    destruct (IH _ Hp) as [t ->]. now exists t.
Qed.

Lemma contains_startswith (sub s : string) :
  startswith sub s = true -> contains sub s = true.
Proof. intros H. destruct s; simpl; now rewrite H. Qed.

Lemma contains_app (a sub b : string) : contains sub (a ++ sub ++ b) = true.
Proof.
  induction a as [|x a IH]; simpl.
  - apply contains_startswith, startswith_app.
  - rewrite IH. apply orb_true_r.
Qed.

Lemma contains_split (sub s : string) :
  contains sub s = true -> exists a b, s = a ++ sub ++ b.
Proof.
  induction s as [|x s IH]; simpl; intros H.
  - rewrite orb_false_r in H. destruct (startswith_split _ _ H) as [t ->].
    now exists "", t.
  - apply orb_true_iff in H as [H|H].
    + destruct (startswith_split _ _ H) as [t ->]. now exists "", t.
    + destruct (IH H) as (a & b & ->). now exists (String x a), b.
Qed.

Lemma contains_iff (sub s : string) :
  contains sub s = true <-> exists a b, s = a ++ sub ++ b.
Proof.
  split; [apply contains_split|]. intros (a & b & ->). apply contains_app.
Qed.

Lemma take_app (a b : string) :
  take (String.length (a ++ b) - String.length b) (a ++ b) = a.
Proof.
  rewrite length_app.
  replace (String.length a + String.length b - String.length b)%nat
    with (String.length a) by lia.
  induction a as [|x a IH]; simpl.
  - now destruct b.
  - now rewrite IH.
Qed.

End StrFacts.

(** ** The matcher against the language of a pattern *)

Module ReFacts.
Import Str Re StrFacts.

(** [matches r w]: the text [w], as a whole, is an instance of [r]. *)
Inductive matches : regex -> string -> Prop :=
| M_Lit p : matches (Lit p) p
| M_Seq r1 r2 w1 w2 :
    matches r1 w1 -> matches r2 w2 -> matches (Seq r1 r2) (w1 ++ w2)
| M_AltL r1 r2 w : matches r1 w -> matches (Alt r1 r2) w
| M_AltR r1 r2 w : matches r2 w -> matches (Alt r1 r2) w
| M_Star c w : Str.forallb (mem c) w = true -> matches (Star c) w
| M_StarLazy c w : Str.forallb (mem c) w = true -> matches (StarLazy c) w
| M_Plus c a w :
    mem c a = true -> Str.forallb (mem c) w = true ->
    matches (Plus c) (String a w)
| M_Group n r w : matches r w -> matches (Group n r) w.

Lemma lit_app (p s : string) : lit p (p ++ s) = Some s.
Proof.
  induction p as [|x p IH]; simpl; [reflexivity|].
  now rewrite Ascii.eqb_refl.
Qed.

Lemma lit_split (p s s' : string) : lit p s = Some s' -> s = p ++ s'.
Proof.
  revert s; induction p as [|x p IH]; intros s H; simpl in *.
  - now inversion H.
  - destruct s as [|y s]; [discriminate|].
    destruct (Ascii.eqb x y) eqn:E; [|discriminate].
    apply Ascii.eqb_eq in E; subst y. now rewrite (IH _ H).
Qed.

Section Completeness.
Context {A : Type}.
Implicit Type k : string -> option A.

Lemma star_greedy_here c k s : k s <> None -> star_greedy c k s <> None.
Proof.
  intros H. destruct s as [|a s]; simpl; [exact H|].
  destruct (mem c a); [|exact H].
  destruct (star_greedy c k s); [discriminate | exact H].
Qed.

Lemma star_greedy_complete c k w s :
  Str.forallb (mem c) w = true -> k s <> None ->
  star_greedy c k (w ++ s) <> None.
Proof.
  induction w as [|a w IH]; simpl; intros Hw Hk.
  - now apply star_greedy_here.
  - apply andb_true_iff in Hw as [Ha Hw]. rewrite Ha.
    destruct (star_greedy c k (w ++ s)) eqn:E; [discriminate|].
    exfalso. now apply (IH Hw Hk).
Qed.

Lemma star_lazy_here c k s : k s <> None -> star_lazy c k s <> None.
Proof.
  intros H. destruct s as [|a s]; simpl;
    (destruct (k _); [discriminate | now elim H]).
Qed.

Lemma star_lazy_complete c k w s :
  Str.forallb (mem c) w = true -> k s <> None ->
  star_lazy c k (w ++ s) <> None.
Proof.
  induction w as [|a w IH]; simpl; intros Hw Hk.
  - now apply star_lazy_here.
  - apply andb_true_iff in Hw as [Ha Hw]. rewrite Ha.
    destruct (k (String a (w ++ s))); [discriminate | now apply IH].
Qed.

(** A match of the whole of [w] exists, and the continuation accepts
    what follows it: the engine finds some match. *)
Lemma exec_complete r w :
  matches r w ->
  forall s caps (k : string -> captures -> option A),
    (forall c, k s c <> None) -> exec r (w ++ s) caps k <> None.
Proof.
  induction 1 as [p | r1 r2 w1 w2 _ IH1 _ IH2 | r1 r2 w _ IH | r1 r2 w _ IH
                  | c w Hw | c w Hw | c a w Ha Hw | n r w _ IH];
    intros s caps k Hk; simpl.
  - rewrite lit_app. apply Hk.
  - rewrite app_assoc. apply IH1. intros c. now apply IH2.
  - destruct (exec r1 (w ++ s) caps k) eqn:E; [discriminate|].
    exfalso. now apply (IH s caps k Hk).
  - destruct (exec r1 (w ++ s) caps k); [discriminate | now apply IH].
  - now apply star_greedy_complete.
  - now apply star_lazy_complete.
  - rewrite Ha. now apply star_greedy_complete.
  - apply IH. intros c. apply Hk.
Qed.
End Completeness.

Section Soundness.
Context {A : Type}.
Implicit Type k : string -> option A.

Lemma star_greedy_sound c k s x :
  star_greedy c k s = Some x ->
  exists w s', s = w ++ s' /\ Str.forallb (mem c) w = true /\ k s' = Some x.
Proof.
  induction s as [|a s IH]; simpl; intros H.
  - now exists "", "".
  - destruct (mem c a) eqn:Ha; [|now exists "", (String a s)].
    destruct (star_greedy c k s) eqn:E.
    + inversion H; subst. destruct (IH eq_refl) as (w & s' & -> & Hw & Hk).
      exists (String a w), s'. simpl. now rewrite Ha, Hw.
    + now exists "", (String a s).
Qed.

Lemma star_lazy_sound c k s x :
  star_lazy c k s = Some x ->
  exists w s', s = w ++ s' /\ Str.forallb (mem c) w = true /\ k s' = Some x.
Proof.
  induction s as [|a s IH]; simpl; intros H.
  - destruct (k "") eqn:E; [|discriminate].
    inversion H; subst. now exists "", "".
  - destruct (k (String a s)) eqn:E.
    { inversion H; subst. now exists "", (String a s). }
    destruct (mem c a) eqn:Ha; [|discriminate].
    destruct (IH H) as (w & s' & -> & Hw & Hk).
    exists (String a w), s'. simpl. now rewrite Ha, Hw.
Qed.

(** Whatever the engine answers comes from the continuation, run after
    an instance of the pattern at the start of the text. *)
Lemma exec_sound r :
  forall s caps (k : string -> captures -> option A) x,
    exec r s caps k = Some x ->
    exists w s' c', s = w ++ s' /\ matches r w /\ k s' c' = Some x.
Proof.
  induction r as [p | r1 IH1 r2 IH2 | r1 IH1 r2 IH2 | c | c | c | n r IH];
    intros s caps k x H; simpl in H.
  - destruct (lit p s) as [s'|] eqn:E; [|discriminate].
    exists p, s', caps. split; [now apply lit_split|]. split; [constructor | exact H].
  - destruct (IH1 _ _ _ _ H) as (w1 & s1 & c1 & -> & M1 & H1).
    destruct (IH2 _ _ _ _ H1) as (w2 & s2 & c2 & -> & M2 & H2).
    exists (w1 ++ w2), s2, c2. rewrite app_assoc.
    split; [reflexivity|]. split; [now constructor | exact H2].
  - destruct (exec r1 s caps k) eqn:E.
    + inversion H; subst. destruct (IH1 _ _ _ _ E) as (w & s' & c' & -> & M & Hk).
      exists w, s', c'. split; [reflexivity|]. split; [now apply M_AltL | exact Hk].
    + destruct (IH2 _ _ _ _ H) as (w & s' & c' & -> & M & Hk).
      exists w, s', c'. split; [reflexivity|]. split; [now apply M_AltR | exact Hk].
  - destruct (star_greedy_sound _ _ _ _ H) as (w & s' & -> & Hw & Hk).
    exists w, s', caps. split; [reflexivity|]. split; [now constructor | exact Hk].
  - destruct (star_lazy_sound _ _ _ _ H) as (w & s' & -> & Hw & Hk).
    exists w, s', caps. split; [reflexivity|]. split; [now constructor | exact Hk].
  - destruct s as [|a s]; [discriminate|].
    destruct (mem c a) eqn:Ha; [|discriminate].
    destruct (star_greedy_sound _ _ _ _ H) as (w & s' & -> & Hw & Hk).
    exists (String a w), s', caps.
    split; [reflexivity|]. split; [now constructor | exact Hk].
  - destruct (IH _ _ _ _ H) as (w & s' & c' & -> & M & Hk).
    eexists w, s', _. split; [reflexivity|]. split; [now constructor | exact Hk].
Qed.
End Soundness.

Lemma search_here r s : match_at r s <> None -> search r s <> None.
Proof.
  intros H. destruct s; simpl; (destruct (match_at r _); [discriminate | now elim H]).
Qed.


Lemma search_complete r a s : match_at r s <> None -> search r (a ++ s) <> None.
Proof.
  intros H. induction a as [|x a IH]; simpl.
  - now apply search_here.
  - destruct (match_at r (String x (a ++ s))); [discriminate | exact IH].
Qed.

Lemma search_sound r s m :
  search r s = Some m -> exists a t, s = a ++ t /\ match_at r t = Some m.
Proof.
  induction s as [|x s IH]; simpl; intros H.
  - destruct (match_at r "") eqn:E; [|discriminate].
    inversion H; subst. now exists "", "".
  - destruct (match_at r (String x s)) eqn:E.
    + inversion H; subst. now exists "", (String x s).
    + destruct (IH H) as (a & t & -> & Ht). now exists (String x a), t.
Qed.

(** [re.search] is truthy exactly on the texts that hold an instance of
    the pattern. *)
Theorem found_iff r s :
  found r s = true <-> exists a w b, s = a ++ w ++ b /\ matches r w.
Proof.
  unfold found. split.
  - destruct (search r s) as [m|] eqn:E; [intros _ | discriminate].
    destruct (search_sound _ _ _ E) as (a & t & -> & Ht).
    destruct (exec_sound _ _ _ _ _ Ht) as (w & b & c' & -> & M & _).
    now exists a, w, b.
  - intros (a & w & b & -> & M).
    destruct (search r (a ++ w ++ b)) eqn:E; [reflexivity|].
    exfalso. revert E. apply search_complete. unfold match_at.
    apply exec_complete; [exact M | discriminate].
Qed.

Lemma alts_matches p rest w : In w (p :: rest) -> matches (alts p rest) w.
Proof.
  revert p. induction rest as [|q rest IH]; intros p [<-|H]; simpl.
  - constructor.
  - destruct H.
  - apply M_AltL. constructor.
  - apply M_AltR. now apply IH.
Qed.

Lemma alts_inv p rest w : matches (alts p rest) w -> In w (p :: rest).
Proof.
  revert p. induction rest as [|q rest IH]; intros p H; simpl in H.
  - inversion H; subst. now left.
  - inversion H; subst.
    + match goal with M : matches (Lit _) _ |- _ => inversion M; subst end. now left.
    + right. now apply IH.
Qed.

End ReFacts.

(** ** Properties of the router *)

Import QueryRouter.

Definition q_raw_materials : string := "What raw materials should I order?".
Definition q_holidays : string := "Should I increase production for the holidays?".

(** C1, as stated, fails: on "What raw materials should I order?" the
    classifier does not answer (RawMaterials, 0.85), so no routing decision
    of that query has the claimed type and [useForecastEngine = true]. *)
Lemma raw_materials_order_not_raw_materials :
  ~ (classify_query q_raw_materials = (RAW_MATERIALS, 0.85%Q)
     /\ exists d, route 4300 q_raw_materials = Ok d
                  /\ product d = None /\ time_period d = 7 /\ use_ml d = true).
Proof. intros [H _]. vm_compute in H. discriminate H. Qed.

(** C1, amended: "What raw materials should I order?" has no "need", so
    the "what ... need" rule does not fire; one keyword of each vocabulary
    occurs ("material", "should i"), and the tie gives
    (GeneralQuestion, 0.50); [route] yields product = none,
    horizonDays = 7, useForecastEngine = false and useAssistant = true. *)
Theorem raw_materials_order_routed :
  Re.found pattern2 (Str.lower q_raw_materials) = false
  /\ score_table ml_keywords (Str.lower q_raw_materials) 0 = 1%nat
  /\ score_table llm_keywords (Str.lower q_raw_materials) 0 = 1%nat
  /\ classify_query q_raw_materials = (GENERAL_QUESTION, 0.5%Q)
  /\ forall max_str_digits,
       route max_str_digits q_raw_materials =
       Ok {| query_type := GENERAL_QUESTION; confidence := 0.5%Q;
             product := None; time_period := 7;
             use_ml := false; use_llm := true;
             original_query := q_raw_materials |}.
Proof. repeat split. Qed.

(** C2, as stated, fails: "Should I increase production for the
    holidays?" is not classified (BusinessAdvice, 0.85). *)
Lemma holidays_not_business_advice :
  classify_query q_holidays <> (BUSINESS_ADVICE, 0.85%Q).
Proof. vm_compute. discriminate. Qed.

(** C2, amended: "Should I increase production for the holidays?" starts
    with "should i" and contains "production"; the production / inventory /
    stock rule is tested before the "should i" rule, and the answer is
    (InventoryNeeds, 0.80). *)
Theorem holidays_inventory_needs :
  Str.startswith "should i" (Str.lower q_holidays) = true
  /\ any_in ["production"; "inventory"; "stock"] (Str.lower q_holidays) = true
  /\ classify_query q_holidays = (INVENTORY_NEEDS, 0.8%Q).
Proof. repeat split. Qed.

(** C3, as stated, fails: a quantity phrase after the product name, or
    next to "cinnamon roll", does not give (ForecastDemand, 0.90). *)
Lemma quantity_product_not_always_forecast :
  (Str.contains "how many" (Str.lower "Croissants: how many?") = true
   /\ Str.contains "croissant" (Str.lower "Croissants: how many?") = true
   /\ classify_query "Croissants: how many?" <> (FORECAST_DEMAND, 0.9%Q))
  /\ (Str.contains "how many" (Str.lower "How many cinnamon rolls?") = true
      /\ Str.contains "cinnamon roll" (Str.lower "How many cinnamon rolls?") = true
      /\ classify_query "How many cinnamon rolls?" <> (FORECAST_DEMAND, 0.9%Q)).
Proof. repeat split; vm_compute; discriminate. Qed.

Definition quantity_phrases : list string := ["how many"; "how much"].
Definition pattern1_products : list string :=
  ["croissant"; "baguette"; "sourdough"; "sandwich"; "donut"; "muffin"].

Lemma pattern1_matches (qp mid p : string) :
  In qp quantity_phrases ->
  Str.forallb (Re.mem Re.Dot) mid = true ->
  In p pattern1_products ->
  ReFacts.matches pattern1 (qp ++ mid ++ p).
Proof.
  intros Hq Hmid Hp.
  assert (exists w, qp = "how " ++ w /\ In w ["many"; "much"]) as (w & -> & Hw).
  { destruct Hq as [<-|[<-|[]]]; eexists; (split; [reflexivity|]); simpl; auto. }
  change (ReFacts.matches pattern1 ("how " ++ w ++ mid ++ p)).
  apply ReFacts.M_Seq; [constructor|].
  apply ReFacts.M_Seq; [constructor; now apply ReFacts.alts_matches|].
  apply ReFacts.M_Seq; [now constructor|].
  constructor. now apply ReFacts.alts_matches.
Qed.

(** C3, amended: when the lower-cased question holds "how many" or
    "how much", then any text without a line break, then one of croissant,
    baguette, sourdough, sandwich, donut, muffin, [classify_query] returns
    (ForecastDemand, 0.90), whichever of these six products is named. *)
Theorem quantity_then_product_forecast
        (query before qp mid p after : string) :
  Str.lower query = before ++ qp ++ mid ++ p ++ after ->
  In qp quantity_phrases ->
  Str.forallb (fun c => negb (Ascii.eqb c "010"%char)) mid = true ->
  In p pattern1_products ->
  classify_query query = (FORECAST_DEMAND, 0.9%Q).
Proof.
  intros E Hq Hmid Hp. unfold classify_query, classify_lower.
  assert (F : Re.found pattern1 (Str.lower query) = true).
  { apply ReFacts.found_iff. exists before, (qp ++ mid ++ p), after. split.
    - now rewrite E, !StrFacts.app_assoc.
    - now apply pattern1_matches. }
  now rewrite F.
Qed.

Lemma quantity_then_product_forecast_witness :
  classify_query "How many croissants do we need for next week?"
  = (FORECAST_DEMAND, 0.9%Q).
Proof.
  apply (quantity_then_product_forecast
           "How many croissants do we need for next week?"
           "" "how many" " " "croissant" "s do we need for next week?").
  - reflexivity.
  - simpl; auto.
  - reflexivity.
  - simpl; auto.
Defined.

(** C8: in every routing decision the two flags are the membership of the
    query type in the two literal lists of [route]; for each of the six
    query types, useForecastEngine = true and useAssistant = false exactly
    on ForecastDemand, InventoryNeeds, RawMaterials, the reverse exactly on
    BusinessAdvice, SupplierInfo, GeneralQuestion, and exactly one flag is
    true. *)
Theorem route_flags (max_str_digits : nat) (query : string) (d : RoutingDecision) :
  route max_str_digits query = Ok d ->
  let qt := query_type d in
  (use_ml d = true /\ use_llm d = false
   <-> qt = FORECAST_DEMAND \/ qt = INVENTORY_NEEDS \/ qt = RAW_MATERIALS)
  /\ (use_ml d = false /\ use_llm d = true
      <-> qt = BUSINESS_ADVICE \/ qt = SUPPLIER_INFO \/ qt = GENERAL_QUESTION)
  /\ xorb (use_ml d) (use_llm d) = true
  /\ (use_ml d = false -> use_llm d = false -> False)
  /\ forall qt' : QueryType,
       xorb (QueryType_in qt' [FORECAST_DEMAND; INVENTORY_NEEDS; RAW_MATERIALS])
            (QueryType_in qt' [BUSINESS_ADVICE; SUPPLIER_INFO; GENERAL_QUESTION])
       = true.
Proof.
  unfold route. destruct (classify_query query) as [qt conf].
  destruct (extract_time_period max_str_digits query) as [days| |];
    try discriminate.
  intros H; inversion H; subst; clear H; simpl.
  split; [|split; [|split; [|split]]].
  - destruct qt; simpl; intuition discriminate.
  - destruct qt; simpl; intuition discriminate.
  - now destruct qt.
  - now destruct qt.
  - now intros [].
Qed.

Lemma route_flags_witness :
  exists d, route 4300 "Where can I buy cheap flour?" = Ok d
            /\ query_type d = SUPPLIER_INFO
            /\ use_ml d = false /\ use_llm d = true
            /\ xorb (use_ml d) (use_llm d) = true.
Proof.
  eexists. split; [reflexivity|].
  pose proof (route_flags 4300 "Where can I buy cheap flour?" _ eq_refl) as H.
  simpl in H. destruct H as (_ & _ & X & _).
  split; [reflexivity|]. split; [reflexivity|]. split; [reflexivity|]. exact X.
Defined.

(** C9: [route] of the empty string raises nothing and returns
    queryType = GeneralQuestion, confidence = 0.50, product = none,
    horizonDays = 7; and any input on which no pattern rule fires and
    both keyword scores are 0 is classified (GeneralQuestion, 0.50). *)
Theorem route_empty_and_default :
  (forall max_str_digits,
      route max_str_digits "" =
      Ok {| query_type := GENERAL_QUESTION; confidence := 0.5%Q;
            product := None; time_period := 7;
            use_ml := false; use_llm := true; original_query := "" |})
  /\ forall query,
      let query_lower := Str.lower query in
      Re.found pattern1 query_lower = false ->
      Re.found pattern2 query_lower = false ->
      any_in ["production"; "inventory"; "stock"] query_lower = false ->
      Re.found pattern4 query_lower = false ->
      Str.startswith "should i" query_lower = false ->
      Str.contains "recommend" query_lower = false ->
      score_table ml_keywords query_lower 0 = 0%nat ->
      score_table llm_keywords query_lower 0 = 0%nat ->
      classify_query query = (GENERAL_QUESTION, 0.5%Q).
Proof.
  split; [reflexivity|].
  intros query ql P1 P2 P3 P4 P5a P5b Hml Hllm.
  unfold classify_query, classify_lower. fold ql.
  now rewrite P1, P2, P3, P4, P5a, P5b, Hml, Hllm.
Qed.

Lemma route_empty_and_default_witness :
  classify_query "Good morning!" = (GENERAL_QUESTION, 0.5%Q).
Proof.
  apply (proj2 route_empty_and_default "Good morning!"); reflexivity.
Defined.

(** The seven canonical product identifiers. *)
Definition canonical_products : list string :=
  ["Croissant"; "Baguette"; "Sourdough"; "Sandwich";
   "Donut"; "Muffin"; "Cinnamon_Roll"].

Lemma first_product_canonical ps query_lower p :
  (forall x, In x ps -> In (normalize x) canonical_products) ->
  first_product ps query_lower = Some p -> In p canonical_products.
Proof.
  induction ps as [|x ps IH]; simpl; intros Hps H; [discriminate|].
  destruct (Str.contains x query_lower).
  - inversion H; subst. apply Hps. now left.
  - apply IH; [|exact H]. intros y Hy. apply Hps. now right.
Qed.

Lemma first_product_first before p after query_lower :
  Str.contains p query_lower = true ->
  (forall x, In x before -> Str.contains x query_lower = false) ->
  first_product (before ++ p :: after)%list query_lower = Some (normalize p).
Proof.
  intros Hp. induction before as [|x before IH]; simpl; intros Hb.
  - now rewrite Hp.
  - rewrite (Hb x) by now left. apply IH. intros y Hy. apply Hb. now right.
Qed.

Lemma first_product_none ps query_lower :
  first_product ps query_lower = None <->
  forall x, In x ps -> Str.contains x query_lower = false.
Proof.
  induction ps as [|x ps IH]; simpl.
  - split; [intros _ y [] | reflexivity].
  - destruct (Str.contains x query_lower) eqn:E.
    + split; [discriminate|]. intros H.
      rewrite (H x (or_introl eq_refl)) in E. discriminate E.
    + rewrite IH. split.
      * intros H y [<-|Hy]; auto.
      * intros H y Hy. apply H. now right.
Qed.

(** C10: [extract_product] returns no product or one of the seven
    identifiers Croissant, Baguette, Sourdough, Sandwich, Donut, Muffin,
    Cinnamon_Roll; "cinnamon roll" and "cinnamon_roll" both normalise to
    Cinnamon_Roll; and the product returned is the first one, in the order
    of the product list, that occurs in the lower-cased query. *)
Theorem extract_product_canonical :
  (forall query,
      extract_product query = None
      \/ exists p, extract_product query = Some p /\ In p canonical_products)
  /\ (normalize "cinnamon roll" = "Cinnamon_Roll"
      /\ normalize "cinnamon_roll" = "Cinnamon_Roll")
  /\ (forall query before p after,
         products = (before ++ p :: after)%list ->
         Str.contains p (Str.lower query) = true ->
         (forall x, In x before -> Str.contains x (Str.lower query) = false) ->
         extract_product query = Some (normalize p))
  /\ (forall query,
         extract_product query = None <->
         forall x, In x products -> Str.contains x (Str.lower query) = false).
Proof.
  split; [|split; [split; reflexivity|split]].
  - intros query. unfold extract_product.
    destruct (first_product products (Str.lower query)) as [p|] eqn:E; [right | now left].
    exists p. split; [reflexivity|].
    apply (first_product_canonical products (Str.lower query)); [|exact E].
    intros x Hx. simpl in Hx.
    repeat (destruct Hx as [<-|Hx]; [vm_compute; tauto|]). destruct Hx.
  - intros query before p after E Hp Hb. unfold extract_product. rewrite E.
    now apply first_product_first.
  - intros query. apply first_product_none.
Qed.

Lemma extract_product_canonical_witness :
  extract_product "Two CINNAMON ROLLS and a donut" = Some "Donut".
Proof.
  apply (proj1 (proj2 (proj2 extract_product_canonical))
           "Two CINNAMON ROLLS and a donut"
           ["croissant"; "baguette"; "sourdough"; "sandwich"] "donut"
           ["muffin"; "cinnamon roll"; "cinnamon_roll"]).
  - reflexivity.
  - reflexivity.
  - intros x Hx. simpl in Hx.
    repeat (destruct Hx as [<-|Hx]; [reflexivity|]). destruct Hx.
Defined.

(** ** The time pattern *)

Module TimeFacts.
Import Str Re StrFacts ReFacts.

Definition units : list string := ["day"; "week"; "month"].
Definition units_re : regex := alts "day" ["week"; "month"].


Lemma exec_seq {A} r1 r2 s caps (k : string -> captures -> option A) :
  exec (Seq r1 r2) s caps k = exec r1 s caps (fun s1 c1 => exec r2 s1 c1 k).
Proof. reflexivity. Qed.

Lemma exec_group {A} n r s caps (k : string -> captures -> option A) :
  exec (Group n r) s caps k =
  exec r s caps
    (fun s' c' => k s' ((n, take (String.length s - String.length s') s) :: c')).
Proof. reflexivity. Qed.






Lemma unit_exec_inv s caps m :
  exec (Group 2 units_re) s caps (fun _ c => Some c) = Some m ->
  exists u post, s = u ++ post /\ In u units /\ m = (2%nat, u) :: caps.
Proof.
  rewrite exec_group. unfold units_re. simpl alts. cbn [exec]. intros H.
  destruct (lit "day" s) as [s1|] eqn:E1.
  { apply lit_split in E1. subst s. cbv beta iota in H.
    rewrite take_app in H. inversion H; subst. exists "day", s1.
    split; [reflexivity|]. split; [unfold units; simpl; tauto | reflexivity]. }
  destruct (lit "week" s) as [s1|] eqn:E2.
  { apply lit_split in E2. subst s. cbv beta iota in H.
    rewrite take_app in H. inversion H; subst. exists "week", s1.
    split; [reflexivity|]. split; [unfold units; simpl; tauto | reflexivity]. }
  destruct (lit "month" s) as [s1|] eqn:E3; [|discriminate].
  apply lit_split in E3. subst s. cbv beta iota in H.
  rewrite take_app in H. inversion H; subst. exists "month", s1.
    split; [reflexivity|]. split; [unfold units; simpl; tauto | reflexivity].
Qed.



Lemma time_match_at_inv t m :
  match_at time_pattern t = Some m ->
  exists ds ws u post,
    t = ds ++ ws ++ u ++ post /\ ds <> "" /\
    Str.forallb is_digit ds = true /\ Str.forallb is_space ws = true /\
    In u units /\ m = [(2%nat, u); (1%nat, ds)].
Proof.
  unfold match_at, QueryRouter.time_pattern.
  rewrite exec_seq, exec_group. intros H.
  destruct t as [|a t]; [discriminate|]. cbn [exec mem] in H.
  destruct (is_digit a) eqn:Ha; [|discriminate].
  apply star_greedy_sound in H as (w & s' & -> & Hw & H).
  change (String a (w ++ s')) with (String a w ++ s') in H.
  rewrite take_app in H. cbn [exec] in H.
  apply star_greedy_sound in H as (w2 & s3 & -> & Hw2 & H).
  apply unit_exec_inv in H as (u & post & -> & Hu & ->).
  exists (String a w), w2, u, post. simpl. rewrite Ha.
  repeat split; auto. discriminate.
Qed.




Lemma time_search_inv s m :
  search time_pattern s = Some m ->
  exists pre ds ws u post,
    s = pre ++ ds ++ ws ++ u ++ post /\ ds <> "" /\
    Str.forallb is_digit ds = true /\ Str.forallb is_space ws = true /\
    In u units /\ m = [(2%nat, u); (1%nat, ds)].
Proof.
  intros H. apply search_sound in H as (pre & t & -> & H).
  apply time_match_at_inv in H as (ds & ws & u & post & -> & R).
  now exists pre, ds, ws, u, post.
Qed.

Lemma value_from_nonneg s acc :
  Str.forallb is_digit s = true -> 0 <= acc -> 0 <= PyInt.value_from acc s.
Proof.
  revert acc. induction s as [|c s IH]; intros acc H Hacc; [exact Hacc|].
  simpl in H. cbn [PyInt.value_from].
  apply andb_true_iff in H as [Hc Hs]. apply IH; [exact Hs|].
  unfold is_digit in Hc. apply andb_true_iff in Hc as [Hc _].
  apply N.leb_le in Hc. unfold PyInt.digit_value.
  assert (48 <= Z.of_N (code c)) by (apply (N2Z.inj_le 48); exact Hc). lia.
Qed.

End TimeFacts.

(** ** The horizon *)


Definition unit_days (unit : string) : Z :=
  if String.eqb unit "day" then 1
  else if String.eqb unit "week" then 7
  else 30.

(** [int] refuses the digit run. *)
Definition too_long (max_str_digits : nat) (digits : string) : bool :=
  (0 <? max_str_digits)%nat && (max_str_digits <? String.length digits)%nat.

Lemma time_of_match_eval max_str_digits ds u :
  ds <> "" -> Str.forallb Str.is_digit ds = true -> In u TimeFacts.units ->
  time_of_match max_str_digits [(2%nat, u); (1%nat, ds)]
  = if too_long max_str_digits ds then ValueError
    else Ok (PyInt.value ds * unit_days u).
Proof.
  intros Hne Hds Hu. unfold time_of_match. cbn [Re.group Nat.eqb].
  unfold PyInt.of_digits, too_long. destruct ds as [|d ds]; [now elim Hne|].
  rewrite Hds. cbn [negb].
  destruct ((0 <? max_str_digits)%nat
            && (max_str_digits <? String.length (String d ds))%nat);
    [reflexivity|].
  destruct Hu as [<-|[<-|[<-|[]]]]; cbn; rewrite ?Z.mul_1_r; reflexivity.
Qed.





(** ** numpy [float64] and [int64] *)

Module B64.

Definition prec : Z := 53.
Definition emax : Z := 1024.

Definition float64 := spec_float.

Definition add : float64 -> float64 -> float64 := SFadd prec emax.
Definition sub : float64 -> float64 -> float64 := SFsub prec emax.
Definition mul : float64 -> float64 -> float64 := SFmul prec emax.
Definition div : float64 -> float64 -> float64 := SFdiv prec emax.
Definition ltb : float64 -> float64 -> bool := SFltb.
Definition leb : float64 -> float64 -> bool := SFleb.
Definition valid : float64 -> bool := valid_binary prec emax.

(** The [float64] nearest to an integer (ties to even). *)
Definition of_Z (z : Z) : float64 := binary_normalize prec emax z 0 false.

Definition zero : float64 := S754_zero false.
Definition one : float64 := of_Z 1.

(** [q + r/d] with [0 <= r < d], rounded to the nearest integer, ties to
    the even one. *)
Definition half_even (q r d : Z) : Z :=
  match Z.compare (2 * r) d with
  | Lt => q
  | Gt => q + 1
  | Eq => if Z.even q then q else q + 1
  end.

(** The integer nearest to [m * 2^e], ties to even. *)
Definition rint_mag (m : positive) (e : Z) : Z :=
  match e with
  | Zneg k => let d := 2 ^ Zpos k in half_even (Zpos m / d) (Zpos m mod d) d
  | _ => Zpos m * 2 ^ e
  end.

(** [np.rint]: the sign is kept, also on a zero result. *)
Definition rint (x : float64) : float64 :=
  match x with
  | S754_finite s m (Zneg k) =>
      match rint_mag m (Zneg k) with
      | 0 => S754_zero s
      | n => binary_normalize prec emax (if s then - n else n) 0 s
      end
  | _ => x
  end.

(** [np.round(x, 2)], as numpy computes it: scale, [rint], scale back. *)
Definition round2 (x : float64) : float64 :=
  div (rint (mul x (of_Z 100))) (of_Z 100).

Definition int64_min : Z := - 2 ^ 63.
Definition int64_max : Z := 2 ^ 63 - 1.

(** [.astype(int)] on one value: truncation towards zero.  [None] stands
    for the inputs on which the conversion is not a defined value: pandas
    raises on NaN and the infinities, and the result of the C conversion
    of a number outside the [int64] range depends on the platform. *)
Definition to_int64 (x : float64) : option Z :=
  match x with
  | S754_zero _ => Some 0
  | S754_finite s m e =>
      let mag := match e with
                 | Zneg k => Zpos m / 2 ^ Zpos k
                 | _ => Zpos m * 2 ^ e
                 end in
      let z := if s then - mag else mag in
      if (int64_min <=? z) && (z <=? int64_max) then Some z else None
  | _ => None
  end.

(** [int64] addition wraps around. *)
Definition wrap64 (z : Z) : Z := (z + 2 ^ 63) mod 2 ^ 64 - 2 ^ 63.

(** The literal [0.95]. *)
Definition lit_0_95 : float64 := S754_finite false 8556839292003942 (-53).

End B64.

(** ** Insertion-ordered dictionaries with string keys *)

Module Dict.

Section Dict.
Context {V : Type}.

Fixpoint get (k : string) (d : list (string * V)) : option V :=
  match d with
  | [] => None
  | (k', v) :: d' => if String.eqb k' k then Some v else get k d'
  end.

(** [d[k] = v]: an existing key keeps its place, a new one goes last. *)
Fixpoint set (k : string) (v : V) (d : list (string * V)) : list (string * V) :=
  match d with
  | [] => [(k, v)]
  | (k', v') :: d' =>
      if String.eqb k' k then (k, v) :: d' else (k', v') :: set k v d'
  end.

Definition keys (d : list (string * V)) : list string := map fst d.

End Dict.

End Dict.

(** ** [forecasting/model.py] *)

(** The arithmetic the raw-material loop uses, so that it can be read
    both with [float64] and with exact numbers. *)
Record arith := {
  num : Type;
  a_of_int : Z -> num;
  a_add : num -> num -> num;
  a_mul : num -> num -> num;
  a_div : num -> num -> num;
  a_round2 : num -> num;
  a_leb : num -> num -> bool
}.

Definition binary64 : arith := {|
  num := B64.float64;
  a_of_int := B64.of_Z;
  a_add := B64.add;
  a_mul := B64.mul;
  a_div := B64.div;
  a_round2 := B64.round2;
  a_leb := B64.leb
|}.

Module FreshCastForecaster.

Import B64.

(** A row of the forecast frame: [ds] is the date as a day number. *)
Record ForecastRow := {
  ds : Z;
  yhat : float64;
  yhat_lower : float64;
  yhat_upper : float64
}.

Record InventoryRow := {
  inv_ds : Z;
  expected_demand : Z;
  recommended_production : Z
}.

(** [.clip(lower=0)]: NaN stays NaN. *)
Definition clip_lower0 (x : float64) : float64 :=
  if ltb x zero then zero else x.

(** The last two lines of [predict], on the tail of the frame the fitted
    model returned: the point estimate is clipped at 0, the bounds are
    not. *)
Definition predict (model_forecast : list ForecastRow) : list ForecastRow :=
  map (fun r => {| ds := ds r;
                   yhat := clip_lower0 (yhat r);
                   yhat_lower := yhat_lower r;
                   yhat_upper := yhat_upper r |}) model_forecast.

Definition recommended_float (service_level : float64) (r : ForecastRow)
  : float64 :=
  let uncertainty := sub (yhat_upper r) (yhat r) in
  rint (add (yhat r) (mul uncertainty service_level)).

Definition expected_float (r : ForecastRow) : float64 := rint (yhat r).

Definition inventory_row (service_level : float64) (r : ForecastRow)
  : option InventoryRow :=
  match to_int64 (recommended_float service_level r),
        to_int64 (expected_float r) with
  | Some rp, Some ed =>
      Some {| inv_ds := ds r; expected_demand := ed;
              recommended_production := rp |}
  | _, _ => None
  end.

Fixpoint all_rows (service_level : float64) (forecast : list ForecastRow)
  : option (list InventoryRow) :=
  match forecast with
  | [] => Some []
  | r :: rest =>
      match inventory_row service_level r, all_rows service_level rest with
      | Some o, Some os => Some (o :: os)
      | _, _ => None
      end
  end.

(** [calculate_inventory_needs], given what the fitted model forecasts for
    the product; [None] when a cast to [int64] is not defined. *)
Definition calculate_inventory_needs (model_forecast : list ForecastRow)
           (service_level : float64) : option (list InventoryRow) :=
  all_rows service_level (predict model_forecast).

Definition RECIPES : list (string * list (string * Z)) :=
  [ ("Croissant", [("flour", 12); ("butter", 8); ("eggs", 15)]);
    ("Baguette", [("flour", 15); ("butter", 0); ("eggs", 0)]);
    ("Sourdough", [("flour", 18); ("butter", 2); ("eggs", 0)]);
    ("Sandwich", [("flour", 8); ("butter", 3); ("eggs", 10); ("meat", 5);
                  ("vegetables", 3)]);
    ("Donut", [("flour", 10); ("butter", 5); ("eggs", 12); ("sugar", 6)]);
    ("Muffin", [("flour", 11); ("butter", 4); ("eggs", 10); ("sugar", 5)]);
    ("Cinnamon_Roll", [("flour", 12); ("butter", 6); ("eggs", 8); ("sugar", 7)]) ].

Section Materials.
Variable A : arith.
Variable recipes : list (string * list (string * Z)).

Definition materials_dict := list (string * num A).

(** The inner loop: one product's recipe added to the running totals. *)
Fixpoint add_recipe (total_production : Z) (recipe : list (string * Z))
         (materials : materials_dict) : materials_dict :=
  match recipe with
  | [] => materials
  | (material, qty_per_100) :: rest =>
      let needed :=
        a_mul A (a_div A (a_of_int A total_production) (a_of_int A 100))
              (a_of_int A qty_per_100) in
      let current := match Dict.get material materials with
                     | Some q => q
                     | None => a_of_int A 0
                     end in
      add_recipe total_production rest
                 (Dict.set material (a_add A current needed) materials)
  end.

(** The outer loop, over the products in iteration order, each with its
    total production. *)
Fixpoint accumulate (totals : list (string * Z)) (materials : materials_dict)
  : materials_dict :=
  match totals with
  | [] => materials
  | (product, total_production) :: rest =>
      accumulate rest
        (match Dict.get product recipes with
         | Some recipe => add_recipe total_production recipe materials
         | None => materials
         end)
  end.

(** Rows in decreasing quantity; rows of equal quantity keep their order
    here (pandas does not fix it). *)
Fixpoint insert_desc (row : string * num A) (rows : materials_dict)
  : materials_dict :=
  match rows with
  | [] => [row]
  | r :: rest =>
      if a_leb A (snd r) (snd row) && negb (a_leb A (snd row) (snd r))
      then row :: r :: rest
      else r :: insert_desc row rest
  end.

Fixpoint sort_values_desc (rows : materials_dict) : materials_dict :=
  match rows with
  | [] => []
  | r :: rest => insert_desc r (sort_values_desc rest)
  end.

(** The frame of [get_raw_materials], given the total production of each
    product: each total rounded to 2 decimals, rows sorted by quantity.
    Without any row the frame has no [quantity_kg] column and sorting
    raises (reported as [None]). *)
Definition materials_frame (totals : list (string * Z)) : option materials_dict :=
  match accumulate totals [] with
  | [] => None
  | materials =>
      Some (sort_values_desc
              (map (fun '(mat, qty) => (mat, a_round2 A qty)) materials))
  end.

End Materials.

(** [recommended_production.sum()] *)
Definition total_production (inventory : list InventoryRow) : Z :=
  fold_left (fun acc o => wrap64 (acc + recommended_production o)) inventory 0.

Fixpoint production_totals (models : list (string * list ForecastRow))
  : option (list (string * Z)) :=
  match models with
  | [] => Some []
  | (product, model_forecast) :: rest =>
      match calculate_inventory_needs model_forecast lit_0_95,
            production_totals rest with
      | Some inventory, Some ts =>
          Some ((product, total_production inventory) :: ts)
      | _, _ => None
      end
  end.

(** [get_raw_materials], given the forecast of each fitted model in the
    iteration order of [self.models]. *)
Definition get_raw_materials (models : list (string * list ForecastRow))
  : option (list (string * float64)) :=
  match production_totals models with
  | Some totals => materials_frame binary64 RECIPES totals
  | None => None
  end.

End FreshCastForecaster.


(** ** Dictionaries, read key by key *)

Module DictFacts.
Import Dict.

Section Facts.
Context {V : Type}.
Implicit Type d : list (string * V).

Lemma get_set_same k v d : get k (set k v d) = Some v.
Proof.
  induction d as [|[k' v'] d IH]; simpl.
  - now rewrite String.eqb_refl.
  - destruct (String.eqb k' k) eqn:E; simpl.
    + now rewrite String.eqb_refl.
    + now rewrite E.
Qed.

Lemma get_set_other k k' v d : k <> k' -> get k' (set k v d) = get k' d.
Proof.
  intros N. induction d as [|[k0 v0] d IH]; simpl.
  - destruct (String.eqb k k') eqn:E; [|reflexivity].
    apply String.eqb_eq in E. now elim N.
  - destruct (String.eqb k0 k) eqn:E; simpl.
    + apply String.eqb_eq in E. subst k0.
      destruct (String.eqb k k') eqn:E'; [|reflexivity].
      apply String.eqb_eq in E'. now elim N.
    + now rewrite IH.
Qed.

Lemma get_set k k' v d :
  get k' (set k v d) = if String.eqb k k' then Some v else get k' d.
Proof.
  destruct (String.eqb k k') eqn:E.
  - apply String.eqb_eq in E. subst. apply get_set_same.
  - apply get_set_other. intros ->. now rewrite String.eqb_refl in E.
Qed.

Lemma get_none_notin k d : get k d = None <-> ~ In k (keys d).
Proof.
  induction d as [|[k' v'] d IH]; simpl.
  - tauto.
  - destruct (String.eqb k' k) eqn:E.
    + apply String.eqb_eq in E. split; [discriminate | intros H; elim H; now left].
    + rewrite IH. apply String.eqb_neq in E. intuition congruence.
Qed.

Lemma in_keys_set k k' v d : In k' (keys (set k v d)) <-> k' = k \/ In k' (keys d).
Proof.
  induction d as [|[k0 v0] d IH]; simpl.
  - intuition congruence.
  - destruct (String.eqb k0 k) eqn:E; simpl.
    + apply String.eqb_eq in E. subst. intuition congruence.
    + rewrite IH. tauto.
Qed.

Lemma nodup_set k v d : NoDup (keys d) -> NoDup (keys (set k v d)).
Proof.
  induction d as [|[k0 v0] d IH]; simpl; intros H.
  - constructor; [intros [] | constructor].
  - inversion H as [|? ? Hn Hd]; subst.
    destruct (String.eqb k0 k) eqn:E; simpl.
    + apply String.eqb_eq in E. subst. now constructor.
    + constructor; [|now apply IH].
      rewrite in_keys_set. apply String.eqb_neq in E. intuition congruence.
Qed.

Lemma empty_iff d : d = [] <-> forall k, get k d = None.
Proof.
  split; [now intros -> |].
  destruct d as [|[k v] d]; [reflexivity|]. intros H.
  specialize (H k). simpl in H. now rewrite String.eqb_refl in H.
Qed.


Lemma keys_map (f : V -> V) d : keys (map (fun '(m, q) => (m, f q)) d) = keys d.
Proof.
  induction d as [|[k' v'] d IH]; simpl; [reflexivity | now rewrite IH].
Qed.

End Facts.

End DictFacts.

(** ** The raw-material loop *)

Module MaterialsFacts.
Import Dict DictFacts FreshCastForecaster.

Section Loop.
Variable A : arith.
Variable recipes : list (string * list (string * Z)).

Local Abbreviation add := (a_add A).

Definition needed (total_production qty_per_100 : Z) : num A :=
  a_mul A (a_div A (a_of_int A total_production) (a_of_int A 100))
        (a_of_int A qty_per_100).

Definition current (o : option (num A)) : num A :=
  match o with Some q => q | None => a_of_int A 0 end.

(** What one product's recipe does to the total of one material. *)
Fixpoint recipe_on (k : string) (total_production : Z)
         (recipe : list (string * Z)) (o : option (num A)) : option (num A) :=
  match recipe with
  | [] => o
  | (material, qty) :: rest =>
      recipe_on k total_production rest
        (if String.eqb material k
         then Some (add (current o) (needed total_production qty))
         else o)
  end.

Definition product_on (k : string) (entry : string * Z) (o : option (num A))
  : option (num A) :=
  match get (fst entry) recipes with
  | Some recipe => recipe_on k (snd entry) recipe o
  | None => o
  end.

Fixpoint totals_on (k : string) (totals : list (string * Z))
         (o : option (num A)) : option (num A) :=
  match totals with
  | [] => o
  | entry :: rest => totals_on k rest (product_on k entry o)
  end.

Lemma get_add_recipe k tp recipe materials :
  get k (add_recipe A tp recipe materials) = recipe_on k tp recipe (get k materials).
Proof.
  revert materials. induction recipe as [|[material qty] rest IH];
    intros materials; simpl; [reflexivity|].
  rewrite IH, get_set. destruct (String.eqb material k) eqn:E; [|reflexivity].
  apply String.eqb_eq in E. now subst.
Qed.

Lemma get_accumulate k totals materials :
  get k (accumulate A recipes totals materials)
  = totals_on k totals (get k materials).
Proof.
  revert materials. induction totals as [|[product tp] rest IH];
    intros materials; simpl; [reflexivity|].
  rewrite IH. unfold product_on. simpl.
  destruct (get product recipes); [now rewrite get_add_recipe | reflexivity].
Qed.

Lemma nodup_add_recipe tp recipe materials :
  NoDup (keys materials) -> NoDup (keys (add_recipe A tp recipe materials)).
Proof.
  revert materials. induction recipe as [|[material qty] rest IH];
    intros materials H; simpl; [exact H|].
  apply IH. now apply nodup_set.
Qed.

Lemma nodup_accumulate totals materials :
  NoDup (keys materials) -> NoDup (keys (accumulate A recipes totals materials)).
Proof.
  revert materials. induction totals as [|[product tp] rest IH];
    intros materials H; simpl; [exact H|].
  apply IH. destruct (get product recipes); [now apply nodup_add_recipe | exact H].
Qed.


Lemma in_keys_insert_desc k row rows :
  In k (keys (insert_desc A row rows)) <-> In k (keys (row :: rows)).
Proof.
  induction rows as [|r rows IH]; [reflexivity|]. cbn [insert_desc].
  destruct (a_leb A (snd r) (snd row) && negb (a_leb A (snd row) (snd r)));
    [reflexivity|].
  simpl in IH |- *. rewrite IH. tauto.
Qed.

Lemma in_keys_sort k rows :
  In k (keys (sort_values_desc A rows)) <-> In k (keys rows).
Proof.
  induction rows as [|r rows IH]; [reflexivity|]. cbn [sort_values_desc].
  rewrite in_keys_insert_desc. simpl. now rewrite IH.
Qed.



Lemma frame_none totals :
  materials_frame A recipes totals = None <->
  forall k, get k (accumulate A recipes totals []) = None.
Proof.
  rewrite <- empty_iff. unfold materials_frame.
  destruct (accumulate A recipes totals []); split; congruence.
Qed.

(** A product without a recipe leaves every total as it is. *)
Lemma accumulate_no_recipe product tp rest materials :
  get product recipes = None ->
  accumulate A recipes ((product, tp) :: rest) materials
  = accumulate A recipes rest materials.
Proof. intros H. simpl. now rewrite H. Qed.






Section ExactAddition.
Hypothesis add_comm : forall a b, add a b = add b a.
Hypothesis add_assoc : forall a b c, add a (add b c) = add (add a b) c.




End ExactAddition.

End Loop.

End MaterialsFacts.

(** ** Properties of the raw-material totals *)

Import FreshCastForecaster.

Definition has_recipe (recipes : list (string * list (string * Z)))
           (entry : string * Z) : bool :=
  match Dict.get (fst entry) recipes with Some _ => true | None => false end.

Lemma accumulate_filter (A : arith) recipes totals materials :
  accumulate A recipes totals materials
  = accumulate A recipes (filter (has_recipe recipes) totals) materials.
Proof.
  revert materials. induction totals as [|[product tp] rest IH];
    intros materials; simpl; [reflexivity|].
  unfold has_recipe at 1. simpl.
  destruct (Dict.get product recipes) eqn:E; simpl; [rewrite E|]; apply IH.
Qed.

(** C7: with production totals {Croissant: 100, Donut: 100} and the recipe
    table of the source (Croissant flour 12, butter 8, eggs 15; Donut
    flour 10, butter 5, eggs 12, sugar 6, in kg per 100 units) the
    materials frame has exactly the rows flour 22.0, butter 13.0,
    eggs 27.0, sugar 6.0; and the products without a recipe entry can be
    dropped from any list of totals without changing the result. *)
Theorem materials_croissant_donut :
  Dict.get "Croissant" RECIPES = Some [("flour", 12); ("butter", 8); ("eggs", 15)]
  /\ Dict.get "Donut" RECIPES
     = Some [("flour", 10); ("butter", 5); ("eggs", 12); ("sugar", 6)]
  /\ materials_frame binary64 RECIPES [("Croissant", 100); ("Donut", 100)]
     = Some [("eggs", B64.of_Z 27); ("flour", B64.of_Z 22);
             ("butter", B64.of_Z 13); ("sugar", B64.of_Z 6)]
  /\ materials_frame binary64 RECIPES
       [("Croissant", 100); ("Bagel", 500); ("Donut", 100)]
     = materials_frame binary64 RECIPES [("Croissant", 100); ("Donut", 100)]
  /\ forall (A : arith) recipes totals,
       materials_frame A recipes totals
       = materials_frame A recipes (filter (has_recipe recipes) totals).
Proof.
  split; [reflexivity|]. split; [reflexivity|].
  split; [vm_compute; reflexivity|]. split; [vm_compute; reflexivity|].
  intros A recipes totals. unfold materials_frame.
  now rewrite <- accumulate_filter.
Qed.




(** Exact arithmetic on rationals, an instance in which addition is
    commutative and associative. *)
Definition Qround2 (q : Q) : Q :=
  let s := (q * 100)%Q in
  let d := Zpos (Qden s) in
  B64.half_even (Qnum s / d) (Qnum s mod d) d # 100.

Definition exact : arith := {|
  num := Q;
  a_of_int := inject_Z;
  a_add := Qplus;
  a_mul := Qmult;
  a_div := Qdiv;
  a_round2 := Qround2;
  a_leb := Qle_bool
|}.




(** ** Rounding in binary64 *)

Module B64Facts.
Import B64.

Definition emin : Z := -1074.

Lemma fexp_eq e : fexp prec emax e = Z.max (e - 53) (-1074).
Proof. reflexivity. Qed.

Lemma pow2_pos k : 0 <= k -> 0 < 2 ^ k.
Proof. intros. apply Z.pow_pos_nonneg; lia. Qed.

Lemma pow2_le a b : a <= b -> 0 <= a -> 2 ^ a <= 2 ^ b.
Proof. intros. apply Z.pow_le_mono_r; lia. Qed.

Lemma pow2_split a b : 0 <= a -> 0 <= b -> 2 ^ (a + b) = 2 ^ a * 2 ^ b.
Proof. intros. now apply Z.pow_add_r. Qed.

(** [digits2_pos] counts the binary digits. *)
Lemma digits2_pos_spec p :
  2 ^ (Zpos (digits2_pos p) - 1) <= Zpos p < 2 ^ Zpos (digits2_pos p).
Proof.
  induction p as [p IH|p IH|]; cbn [digits2_pos].
  - rewrite Pos2Z.inj_succ.
    replace (Z.succ (Zpos (digits2_pos p)) - 1) with (Z.succ (Zpos (digits2_pos p) - 1)) by lia.
    rewrite !Z.pow_succ_r by lia. rewrite (Pos2Z.inj_xI p).
    generalize dependent (2 ^ (Zpos (digits2_pos p) - 1)). generalize (2 ^ Zpos (digits2_pos p)). intros. lia.
  - rewrite Pos2Z.inj_succ.
    replace (Z.succ (Zpos (digits2_pos p)) - 1) with (Z.succ (Zpos (digits2_pos p) - 1)) by lia.
    rewrite !Z.pow_succ_r by lia. rewrite (Pos2Z.inj_xO p).
    generalize dependent (2 ^ (Zpos (digits2_pos p) - 1)). generalize (2 ^ Zpos (digits2_pos p)). intros. lia.
  - simpl. lia.
Qed.

Lemma Zdigits2_spec m :
  0 < m -> 2 ^ (Zdigits2 m - 1) <= m < 2 ^ Zdigits2 m.
Proof. destruct m; try lia. intros _. apply digits2_pos_spec. Qed.

Lemma Zdigits2_pos m : 0 < m -> 0 < Zdigits2 m.
Proof. destruct m; simpl; lia. Qed.

Lemma Zdigits2_nonneg m : 0 <= Zdigits2 m.
Proof. destruct m; simpl; lia. Qed.

(** One step of the right shift halves the mantissa. *)
Lemma shr_1_m mrs : 0 <= shr_m mrs -> shr_m (shr_1 mrs) = shr_m mrs / 2.
Proof.
  destruct mrs as [m r s]. simpl. intros H.
  destruct m as [|[p|p|]|p]; try lia; simpl shr_m.
  - reflexivity.
  - apply (Z.div_unique (Zpos p~1) 2 (Zpos p) 1); lia.
  - apply (Z.div_unique (Zpos p~0) 2 (Zpos p) 0); lia.
  - reflexivity.
Qed.

Lemma iter_shr_m n : forall mrs,
  0 <= shr_m mrs ->
  shr_m (iter_pos shr_1 n mrs) = shr_m mrs / 2 ^ Zpos n.
Proof.
  induction n as [n IH|n IH|]; intros mrs H; cbn [iter_pos].
  - assert (H1 : 0 <= shr_m (shr_1 mrs)) by (rewrite shr_1_m by lia; apply Z.div_pos; lia).
    assert (H2 : 0 <= shr_m (iter_pos shr_1 n (shr_1 mrs)))
      by (rewrite IH by lia; apply Z.div_pos; [lia | apply pow2_pos; lia]).
    rewrite IH, IH, shr_1_m by lia.
    rewrite !Z.div_div by (try apply pow2_pos; lia).
    f_equal. rewrite (Pos2Z.inj_xI n).
    replace (2 * Zpos n + 1) with (1 + Zpos n + Zpos n) by lia.
    rewrite !pow2_split by lia. change (2 ^ 1) with 2. ring.
  - assert (H2 : 0 <= shr_m (iter_pos shr_1 n mrs))
      by (rewrite IH by lia; apply Z.div_pos; [lia | apply pow2_pos; lia]).
    rewrite IH, IH by lia.
    rewrite !Z.div_div by (try apply pow2_pos; lia).
    f_equal. rewrite (Pos2Z.inj_xO n).
    replace (2 * Zpos n) with (Zpos n + Zpos n) by lia.
    now rewrite !pow2_split by lia.
  - rewrite shr_1_m by lia. reflexivity.
Qed.


Lemma iter_xO m d : Zpos (Pos.iter xO m d) = Zpos m * 2 ^ Zpos d.
Proof.
  induction d as [|d IH] using Pos.peano_ind.
  - cbn [Pos.iter]. change (2 ^ 1) with 2. lia.
  - rewrite Pos.iter_succ, (Pos2Z.inj_xO (Pos.iter xO m d)), IH, Pos2Z.inj_succ.
    rewrite Z.pow_succ_r by lia. lia.
Qed.

Lemma digits_iter_xO m d :
  Zpos (digits2_pos (Pos.iter xO m d)) = Zpos (digits2_pos m) + Zpos d.
Proof.
  induction d as [|d IH] using Pos.peano_ind.
  - simpl. lia.
  - rewrite Pos.iter_succ. cbn [digits2_pos]. rewrite Pos2Z.inj_succ, IH. lia.
Qed.

Lemma shl_align_spec m e e' m1 e1 :
  shl_align m e e' = (m1, e1) ->
  e1 = Z.min e e' /\ Zpos m1 = Zpos m * 2 ^ (e - e1)
  /\ Zpos (digits2_pos m1) + e1 = Zpos (digits2_pos m) + e.
Proof.
  unfold shl_align. destruct (e' - e) as [|d|d] eqn:E; intros H; inversion H; subst.
  - replace (e1 - e1) with 0 by lia. simpl. lia.
  - replace (e1 - e1) with 0 by lia. simpl. lia.
  - assert (e - e1 = Zpos d) as -> by lia.
    rewrite iter_xO, digits_iter_xO. lia.
Qed.

Lemma shr_m_of_loc m l : shr_m (shr_record_of_loc m l) = m.
Proof. destruct l as [|[]]; reflexivity. Qed.

Lemma shr_fexp_spec m e l mrs e' :
  0 <= m ->
  shr_fexp prec emax m e l = (mrs, e') ->
  e' = Z.max e (fexp prec emax (Zdigits2 m + e))
  /\ shr_m mrs = m / 2 ^ (e' - e).
Proof.
  intros Hm. unfold shr_fexp, shr.
  destruct (fexp prec emax (Zdigits2 m + e) - e) as [|n|n] eqn:E;
    intros H; inversion H; subst; clear H.
  - replace (e' - e') with 0 by lia. rewrite shr_m_of_loc, Z.div_1_r. lia.
  - rewrite iter_shr_m by now rewrite shr_m_of_loc.
    rewrite shr_m_of_loc. split; [lia|]. f_equal. f_equal. lia.
  - replace (e' - e') with 0 by lia. rewrite shr_m_of_loc, Z.div_1_r. lia.
Qed.

Lemma round_nearest_even_bounds m l :
  m <= round_nearest_even m l <= m + 1.
Proof.
  destruct l as [|[]]; simpl; try lia. destruct (Z.even m); lia.
Qed.

(** What [binary_round_aux] computes, as integers. *)
Lemma binary_round_aux_spec sx mz ez lx :
  0 <= mz ->
  exists e1 m1 e2 m2,
    e1 = Z.max ez (fexp prec emax (Zdigits2 mz + ez))
    /\ mz / 2 ^ (e1 - ez) <= m1 <= mz / 2 ^ (e1 - ez) + 1
    /\ e2 = Z.max e1 (fexp prec emax (Zdigits2 m1 + e1))
    /\ m2 = m1 / 2 ^ (e2 - e1)
    /\ binary_round_aux prec emax sx mz ez lx
       = match m2 with
         | Z0 => S754_zero sx
         | Zpos m => if e2 <=? emax - prec then S754_finite sx m e2
                     else S754_infinity sx
         | Zneg _ => S754_nan
         end.
Proof.
  intros Hm. unfold binary_round_aux.
  destruct (shr_fexp prec emax mz ez lx) as [mrs1 e1] eqn:E1.
  destruct (shr_fexp_spec _ _ _ _ _ Hm E1) as [He1 Hm1].
  set (m1 := round_nearest_even (shr_m mrs1) (loc_of_shr_record mrs1)).
  assert (B : shr_m mrs1 <= m1 <= shr_m mrs1 + 1) by apply round_nearest_even_bounds.
  assert (P : 0 <= shr_m mrs1).
  { rewrite Hm1. apply Z.div_pos; [lia | apply pow2_pos; lia]. }
  destruct (shr_fexp prec emax m1 e1 loc_Exact) as [mrs2 e2] eqn:E2.
  destruct (shr_fexp_spec _ _ _ _ _ (Z.le_trans _ _ _ P (proj1 B)) E2) as [He2 Hm2].
  exists e1, m1, e2, (shr_m mrs2).
  rewrite <- Hm1. repeat split; auto; lia.
Qed.


(** The value of [m * 2^e] in units of [2^-1074], the smallest positive
    [float64]. *)
Definition sc (m e : Z) : Z := m * 2 ^ (e + 1074).

Definition canonical (m : positive) (e : Z) : Prop :=
  e = Z.max (Zpos (digits2_pos m) + e - 53) (-1074).

Lemma bounded_canonical m e :
  bounded prec emax m e = true -> canonical m e /\ e <= 971.
Proof.
  unfold bounded, canonical_mantissa, canonical. intros H.
  apply andb_true_iff in H as [H1 H2].
  apply Z.eqb_eq in H1. apply Z.leb_le in H2.
  rewrite fexp_eq in H1. unfold prec, emax in *. lia.
Qed.

Lemma pow2_lt_inv a b : 0 <= b -> 2 ^ a < 2 ^ b -> a < b.
Proof. intros Hb H. apply (Z.pow_lt_mono_r_iff 2); lia. Qed.

Lemma sc_pos m e : 0 < m -> -1074 <= e -> 0 < sc m e.
Proof.
  intros. unfold sc. apply Z.mul_pos_pos; [lia | apply pow2_pos; lia].
Qed.

Lemma sc_shift m e k : 0 <= k -> -1074 <= e -> sc (m * 2 ^ k) e = sc m (e + k).
Proof.
  intros. unfold sc. replace (e + k + 1074) with (k + (e + 1074)) by lia.
  rewrite (pow2_split k (e + 1074)) by lia. ring.
Qed.

(** A larger value has at least as large a magnitude. *)
Lemma mag_le my ey mz ez :
  0 < my -> 0 < mz -> -1074 <= ey -> -1074 <= ez ->
  sc my ey <= sc mz ez ->
  Zdigits2 my + ey <= Zdigits2 mz + ez.
Proof.
  intros Hy Hz Hey Hez H. unfold sc in H.
  pose proof (Zdigits2_spec my Hy) as [Dy _].
  pose proof (Zdigits2_spec mz Hz) as [_ Dz].
  pose proof (Zdigits2_pos my Hy). pose proof (Zdigits2_pos mz Hz).
  assert (L : 2 ^ (Zdigits2 my - 1 + (ey + 1074)) < 2 ^ (Zdigits2 mz + (ez + 1074))).
  { rewrite (pow2_split (Zdigits2 my - 1) (ey + 1074)) by lia.
    rewrite (pow2_split (Zdigits2 mz) (ez + 1074)) by lia.
    pose proof (pow2_pos (ey + 1074)). pose proof (pow2_pos (ez + 1074)).
    nia. }
  apply pow2_lt_inv in L; lia.
Qed.

Lemma div_pow_lower m k j :
  0 <= k -> 0 <= j -> 2 ^ (k + j) <= m -> 2 ^ k <= m / 2 ^ j.
Proof.
  intros Hk Hj H. apply Z.div_le_lower_bound; [apply pow2_pos; lia|].
  rewrite (pow2_split k j) in H by lia. lia.
Qed.

Lemma sc_ge_pow m e k :
  -1074 <= e -> 0 <= k -> 2 ^ k <= m -> 2 ^ (k + e + 1074) <= sc m e.
Proof.
  intros He Hk H. unfold sc.
  replace (k + e + 1074) with (k + (e + 1074)) by lia.
  rewrite (pow2_split k (e + 1074)) by lia.
  apply Z.mul_le_mono_nonneg_r; [|exact H].
  apply Z.lt_le_incl, pow2_pos. lia.
Qed.

Lemma sc_lt_pow m e k :
  -1074 <= e -> 0 <= k -> 0 < m -> m < 2 ^ k -> sc m e < 2 ^ (k + e + 1074).
Proof.
  intros He Hk Hm H. unfold sc.
  replace (k + e + 1074) with (k + (e + 1074)) by lia.
  rewrite (pow2_split k (e + 1074)) by lia.
  apply Z.mul_lt_mono_pos_r; [apply pow2_pos; lia | exact H].
Qed.

(** A canonical value is below [2^(53 + e)]. *)
Lemma canonical_lt my ey :
  canonical my ey -> sc (Zpos my) ey < 2 ^ (53 + ey + 1074).
Proof.
  unfold canonical. intros C.
  pose proof (digits2_pos_spec my) as [_ D].
  assert (Zpos (digits2_pos my) <= 53) by lia.
  apply sc_lt_pow; try lia.
  eapply Z.lt_le_trans; [exact D | apply pow2_le; lia].
Qed.

(** One right shift to the exponent [fexp] asks for: the value does not
    fall below a canonical value it was not below before. *)
Lemma shift_lower my ey m e e' :
  canonical my ey -> 0 <= m -> -1074 <= e -> ey <= e' ->
  e' = Z.max e (fexp prec emax (Zdigits2 m + e)) ->
  sc (Zpos my) ey <= sc m e ->
  sc (Zpos my) ey <= sc (m / 2 ^ (e' - e)) e'.
Proof.
  intros C Hm He Hey He' H. rewrite fexp_eq in He'.
  assert (Cy : -1074 <= ey) by (unfold canonical in C; lia).
  assert (Mp : 0 < m).
  { pose proof (sc_pos (Zpos my) ey ltac:(lia) Cy). unfold sc in *.
    pose proof (pow2_pos (e + 1074)). nia. }
  destruct (Z.eq_dec e' e) as [->|N].
  { now rewrite Z.sub_diag, Z.div_1_r. }
  assert (E : e' = Zdigits2 m + e - 53) by lia.
  assert (G : e < e') by lia.
  destruct (Z.eq_dec ey e') as [->|N'].
  - (* same exponent: the shifted mantissa is the floor of a quotient *)
    unfold sc. apply Z.mul_le_mono_nonneg_r;
      [apply Z.lt_le_incl, pow2_pos; lia|].
    apply Z.div_le_lower_bound; [apply pow2_pos; lia|].
    unfold sc in H.
    replace (e' + 1074) with ((e' - e) + (e + 1074)) in H by lia.
    rewrite (pow2_split (e' - e) (e + 1074)) in H by lia.
    pose proof (pow2_pos (e + 1074)). pose proof (pow2_pos (e' - e)). nia.
  - (* smaller exponent: the shifted mantissa has 53 digits *)
    pose proof (Zdigits2_spec m Mp) as [D _].
    assert (L : 2 ^ 52 <= m / 2 ^ (e' - e)).
    { apply div_pow_lower; try lia.
      replace (52 + (e' - e)) with (Zdigits2 m - 1) by lia. exact D. }
    pose proof (canonical_lt my ey C) as U.
    pose proof (sc_ge_pow (m / 2 ^ (e' - e)) e' 52 ltac:(lia) ltac:(lia) L) as V.
    assert (2 ^ (53 + ey + 1074) <= 2 ^ (52 + e' + 1074)) by (apply pow2_le; lia).
    lia.
Qed.

Lemma shift_mantissa m e e' :
  0 <= m -> e' = Z.max e (fexp prec emax (Zdigits2 m + e)) ->
  0 <= m / 2 ^ (e' - e) < 2 ^ 53.
Proof.
  intros Hm He'. rewrite fexp_eq in He'.
  split; [apply Z.div_pos; [lia | apply pow2_pos; lia]|].
  destruct (Z.eq_dec m 0) as [->|N].
  { rewrite Z.div_0_l; [reflexivity|]. pose proof (pow2_pos (e' - e)). lia. }
  pose proof (Zdigits2_spec m ltac:(lia)) as [_ D].
  pose proof (Zdigits2_pos m ltac:(lia)).
  apply Z.div_lt_upper_bound; [apply pow2_pos; lia|].
  rewrite <- (pow2_split (e' - e) 53) by lia.
  eapply Z.lt_le_trans; [exact D | apply pow2_le; lia].
Qed.


Lemma sc_mono m m' e : -1074 <= e -> m <= m' -> sc m e <= sc m' e.
Proof.
  intros. unfold sc. apply Z.mul_le_mono_nonneg_r; [|assumption].
  apply Z.lt_le_incl, pow2_pos. lia.
Qed.

(** The shape of a rounded result: the sign given, a mantissa of at most
    53 digits, an exponent of at least -1074. *)
Definition shaped (sx : bool) (x : spec_float) : Prop :=
  match x with
  | S754_zero s => s = sx
  | S754_infinity s => s = sx
  | S754_finite s m e => s = sx /\ -1074 <= e /\ Zpos m < 2 ^ 53
  | S754_nan => False
  end.

Lemma binary_round_aux_shape sx mz ez lx :
  0 <= mz -> shaped sx (binary_round_aux prec emax sx mz ez lx).
Proof.
  intros Hm.
  destruct (binary_round_aux_spec sx mz ez lx Hm)
    as (e1 & m1 & e2 & m2 & He1 & Hm1 & He2 & Hm2 & ->).
  assert (P1 : 0 <= m1).
  { assert (0 <= mz / 2 ^ (e1 - ez))
      by (apply Z.div_pos; [lia | apply pow2_pos; lia]). lia. }
  pose proof (shift_mantissa m1 e1 e2 P1 He2) as B. rewrite <- Hm2 in B.
  rewrite fexp_eq in He1.
  destruct m2 as [|m|m].
  - reflexivity.
  - destruct (e2 <=? emax - prec); unfold shaped; [|reflexivity].
    repeat split; lia.
  - lia.
Qed.

(** Rounding does not go below a canonical value that the exact value is
    not below. *)
Lemma binary_round_aux_lower mz ez lx my ey :
  0 < mz -> -1074 <= ez -> canonical my ey ->
  sc (Zpos my) ey <= sc mz ez ->
  binary_round_aux prec emax false mz ez lx = S754_infinity false
  \/ exists mr er,
      binary_round_aux prec emax false mz ez lx = S754_finite false mr er
      /\ -1074 <= er /\ Zpos mr < 2 ^ 53
      /\ sc (Zpos my) ey <= sc (Zpos mr) er.
Proof.
  intros Hm Hez C H.
  destruct (binary_round_aux_spec false mz ez lx (Z.lt_le_incl _ _ Hm))
    as (e1 & m1 & e2 & m2 & He1 & Hm1 & He2 & Hm2 & ->).
  assert (Cy : -1074 <= ey) by (unfold canonical in C; lia).
  pose proof (mag_le (Zpos my) ey mz ez ltac:(lia) Hm Cy Hez H) as M.
  assert (Hey : ey <= e1).
  { rewrite fexp_eq in He1. unfold canonical in C. simpl Zdigits2 in M. lia. }
  assert (P0 : 0 <= mz / 2 ^ (e1 - ez))
    by (apply Z.div_pos; [lia | apply pow2_pos; lia]).
  assert (E1 : -1074 <= e1) by lia.
  assert (S1 : sc (Zpos my) ey <= sc m1 e1).
  { eapply Z.le_trans;
      [apply (shift_lower my ey mz ez e1); auto; lia | apply sc_mono; lia]. }
  assert (S2 : sc (Zpos my) ey <= sc m2 e2).
  { rewrite Hm2. apply shift_lower; auto; lia. }
  pose proof (shift_mantissa m1 e1 e2 ltac:(lia) He2) as B. rewrite <- Hm2 in B.
  pose proof (sc_pos (Zpos my) ey ltac:(lia) Cy) as Yp.
  destruct m2 as [|m|m]; try lia.
  - unfold sc in S2. lia.
  - destruct (e2 <=? emax - prec); [right | now left].
    exists m, e2. repeat split; auto; lia.
Qed.

Lemma binary_round_shape sx mx ex :
  shaped sx (binary_round prec emax sx mx ex).
Proof.
  unfold binary_round.
  destruct (shl_align mx ex (fexp prec emax (Zpos (digits2_pos mx) + ex))) as [mz ez].
  apply binary_round_aux_shape. lia.
Qed.

Lemma binary_round_lower mx ex my ey :
  -1074 <= ex -> canonical my ey ->
  sc (Zpos my) ey <= sc (Zpos mx) ex ->
  binary_round prec emax false mx ex = S754_infinity false
  \/ exists mr er,
      binary_round prec emax false mx ex = S754_finite false mr er
      /\ -1074 <= er /\ Zpos mr < 2 ^ 53
      /\ sc (Zpos my) ey <= sc (Zpos mr) er.
Proof.
  intros Hex C H. unfold binary_round.
  destruct (shl_align mx ex (fexp prec emax (Zpos (digits2_pos mx) + ex)))
    as [mz ez] eqn:E.
  apply shl_align_spec in E as (Ez & Mz & _).
  rewrite fexp_eq in Ez.
  apply binary_round_aux_lower; auto; try lia.
  rewrite Mz, sc_shift by lia. now replace (ez + (ex - ez)) with ex by lia.
Qed.


(** *** Rounding to an integer *)

Definition D : Z := 2 ^ 1074.

(** The integer nearest to [v / 2^1074], ties to even. *)
Definition nearest (v : Z) : Z := half_even (v / D) (v mod D) D.

Lemma D_pos : 0 < D.
Proof. apply pow2_pos. lia. Qed.

Lemma half_even_bounds q r d : q <= half_even q r d <= q + 1.
Proof.
  unfold half_even. destruct (2 * r ?= d); try lia. destruct (Z.even q); lia.
Qed.

Lemma nearest_mono v w : v <= w -> nearest v <= nearest w.
Proof.
  intros H. unfold nearest. pose proof D_pos as Dp.
  pose proof (Z.div_le_mono v w D Dp H) as Q.
  pose proof (half_even_bounds (v / D) (v mod D) D).
  pose proof (half_even_bounds (w / D) (w mod D) D).
  destruct (Z.eq_dec (v / D) (w / D)) as [E|N]; [|lia].
  assert (R : v mod D <= w mod D).
  { rewrite (Z.mod_eq v D), (Z.mod_eq w D), E by lia. lia. }
  rewrite E. unfold half_even.
  destruct (2 * (v mod D) ?= D) eqn:C1, (2 * (w mod D) ?= D) eqn:C2;
    try (rewrite ?Z.compare_eq_iff, ?Z.compare_lt_iff, ?Z.compare_gt_iff in *);
    destruct (Z.even (w / D)); lia.
Qed.

Lemma rint_mag_nearest m e :
  -1074 <= e -> rint_mag m e = nearest (sc (Zpos m) e).
Proof.
  intros He. unfold nearest, sc, D. destruct e as [|k|k]; cbn [rint_mag].
  - change (0 + 1074) with 1074. rewrite Z.div_mul, Z.mod_mul by (pose proof D_pos; unfold D in *; lia).
    unfold half_even. pose proof D_pos as Dp. unfold D in Dp.
    replace (2 * 0 ?= 2 ^ 1074) with Lt
      by (symmetry; apply Z.compare_lt_iff; lia).
    change (2 ^ 0) with 1. lia.
  - rewrite (pow2_split (Zpos k) 1074) by lia.
    rewrite Z.mul_assoc, Z.div_mul, Z.mod_mul by (pose proof D_pos; unfold D in *; lia).
    unfold half_even. pose proof D_pos as Dp. unfold D in Dp.
    replace (2 * 0 ?= 2 ^ 1074) with Lt
      by (symmetry; apply Z.compare_lt_iff; lia).
    reflexivity.
  - set (d := 2 ^ Zpos k). set (c := 2 ^ (Zneg k + 1074)).
    assert (Hd : 0 < d) by (apply pow2_pos; lia).
    assert (Hc : 0 < c) by (apply pow2_pos; lia).
    assert (E : 2 ^ 1074 = d * c).
    { unfold d, c. rewrite <- pow2_split by lia. f_equal. lia. }
    rewrite E.
    rewrite (Z.mul_comm d c), (Z.mul_comm (Zpos m) c).
    rewrite Z.div_mul_cancel_l, Z.mul_mod_distr_l by lia.
    unfold half_even.
    replace (2 * (c * (Zpos m mod d)) ?= c * d)
      with (2 * (Zpos m mod d) ?= d); [reflexivity|].
    destruct (Z.compare_spec (2 * (Zpos m mod d)) d) as [Q|Q|Q]; symmetry.
    + apply Z.compare_eq_iff. nia.
    + apply Z.compare_lt_iff. nia.
    + apply Z.compare_gt_iff. nia.
Qed.

Lemma rint_mag_nonneg m e : 0 <= rint_mag m e.
Proof.
  destruct e as [|k|k]; cbn [rint_mag].
  - lia.
  - pose proof (pow2_pos (Zpos k)). lia.
  - pose proof (half_even_bounds (Zpos m / 2 ^ Zpos k) (Zpos m mod 2 ^ Zpos k) (2 ^ Zpos k)).
    assert (0 <= Zpos m / 2 ^ Zpos k) by (apply Z.div_pos; [lia | apply pow2_pos; lia]).
    lia.
Qed.

Lemma rint_mag_small m k :
  Zpos m < 2 ^ 53 -> rint_mag m (Zneg k) < 2 ^ 53.
Proof.
  intros H. cbn [rint_mag].
  pose proof (half_even_bounds (Zpos m / 2 ^ Zpos k) (Zpos m mod 2 ^ Zpos k) (2 ^ Zpos k)).
  assert (Zpos m / 2 ^ Zpos k <= Zpos m / 2 ^ 1).
  { apply Z.div_le_compat_l; [lia|]. split; [reflexivity | apply pow2_le; lia]. }
  assert (Zpos m / 2 ^ 1 < 2 ^ 52).
  { apply Z.div_lt_upper_bound; [reflexivity|]. exact H. }
  assert (2 ^ 52 < 2 ^ 53) by reflexivity. lia.
Qed.

(** An integer of at most 53 digits is a [float64]. *)
Lemma of_Z_exact n :
  Zpos n < 2 ^ 53 ->
  exists m e, of_Z (Zpos n) = S754_finite false m e
              /\ e <= 0 /\ Zpos m = Zpos n * 2 ^ (- e).
Proof.
  intros H. unfold of_Z, binary_normalize, binary_round.
  pose proof (digits2_pos_spec n) as [D1 D2].
  assert (Dn : Zpos (digits2_pos n) <= 53).
  { assert (2 ^ (Zpos (digits2_pos n) - 1) < 2 ^ 53) by lia.
    apply pow2_lt_inv in H0; lia. }
  destruct (shl_align n 0 (fexp prec emax (Zpos (digits2_pos n) + 0)))
    as [mz ez] eqn:E.
  apply shl_align_spec in E as (Ez & Mz & Dz).
  rewrite fexp_eq in Ez.
  assert (Ez' : ez = Zpos (digits2_pos n) - 53) by lia.
  unfold binary_round_aux, shr_fexp.
  cbn [Zdigits2].
  replace (fexp prec emax (Zpos (digits2_pos mz) + ez) - ez) with 0
    by (rewrite fexp_eq; lia).
  cbn [shr shr_record_of_loc loc_of_shr_record shr_m round_nearest_even Zdigits2].
  replace (fexp prec emax (Zpos (digits2_pos mz) + ez) - ez) with 0
    by (rewrite fexp_eq; lia).
  cbn [shr shr_m].
  replace (ez <=? emax - prec) with true
    by (symmetry; apply Z.leb_le; unfold emax, prec; lia).
  exists mz, ez. split; [reflexivity|]. split; [lia|].
  rewrite Mz. now replace (0 - ez) with (- ez) by lia.
Qed.

Lemma to_int64_of_Z n : Zpos n < 2 ^ 53 -> to_int64 (of_Z (Zpos n)) = Some (Zpos n).
Proof.
  intros H. destruct (of_Z_exact n H) as (m & e & -> & He & Hm).
  unfold to_int64.
  assert (M : match e with
              | Zneg k => Zpos m / 2 ^ Zpos k
              | _ => Zpos m * 2 ^ e
              end = Zpos n).
  { destruct e as [|k|k]; try lia.
    rewrite Hm. change (- Zneg k) with (Zpos k).
    apply Z.div_mul. pose proof (pow2_pos (Zpos k)). lia. }
  rewrite M.
  assert (R : (int64_min <=? Zpos n) && (Zpos n <=? int64_max) = true).
  { apply andb_true_iff. split; apply Z.leb_le; unfold int64_min, int64_max.
    - pose proof (pow2_pos 63). lia.
    - assert (2 ^ 53 < 2 ^ 63) by reflexivity. lia. }
  now rewrite R.
Qed.

(** The integer that [round().astype(int)] gives for a value that is not
    negative. *)
Definition ival (x : float64) : Z :=
  match x with
  | S754_finite false m e => rint_mag m e
  | _ => 0
  end.

(** Not negative: a zero, a positive finite number of the shape rounding
    leaves, plus infinity, or NaN. *)
Definition nonneg (x : float64) : Prop :=
  match x with
  | S754_zero _ => True
  | S754_infinity s => s = false
  | S754_finite s m e => s = false /\ -1074 <= e /\ Zpos m < 2 ^ 53
  | S754_nan => True
  end.

Lemma shaped_nonneg x : shaped false x -> nonneg x.
Proof. destruct x; simpl; tauto. Qed.

Lemma to_int64_rint x z :
  nonneg x -> to_int64 (rint x) = Some z -> z = ival x.
Proof.
  destruct x as [s|s| |s m e]; cbn [nonneg]; intros Sh H.
  - simpl in H. now inversion H.
  - discriminate.
  - discriminate.
  - destruct Sh as (-> & He & Hm). cbn [ival].
    destruct e as [|k|k].
    + cbn [rint to_int64] in H. cbn [rint_mag].
      destruct (_ && _) in H; [now inversion H | discriminate].
    + cbn [rint to_int64] in H. cbn [rint_mag].
      destruct (_ && _) in H; [now inversion H | discriminate].
    + cbn [rint] in H.
      pose proof (rint_mag_nonneg m (Zneg k)) as N.
      pose proof (rint_mag_small m k Hm) as S.
      destruct (rint_mag m (Zneg k)) as [|n|n]; try lia.
      * simpl in H. now inversion H.
      * change (binary_normalize prec emax (Zpos n) 0 false) with (of_Z (Zpos n)) in H.
        rewrite to_int64_of_Z in H by exact S. now inversion H.
Qed.

Lemma ival_nonneg x : 0 <= ival x.
Proof. destruct x as [| | |[] m e]; simpl; try lia. apply rint_mag_nonneg. Qed.

(** *** The operations of the inventory computation *)

Lemma valid_finite s m e :
  valid (S754_finite s m e) = true ->
  canonical m e /\ -1074 <= e /\ Zpos m < 2 ^ 53.
Proof.
  intros H. apply bounded_canonical in H as [C _]. split; [exact C|].
  pose proof (digits2_pos_spec m) as [_ D]. unfold canonical in C.
  split; [lia|]. eapply Z.lt_le_trans; [exact D | apply pow2_le; lia].
Qed.

Lemma leb_sc my ey mu eu :
  canonical my ey -> canonical mu eu ->
  leb (S754_finite false my ey) (S754_finite false mu eu) = true ->
  sc (Zpos my) ey <= sc (Zpos mu) eu.
Proof.
  intros Cy Cu. unfold leb, SFleb, SFcompare.
  destruct (Z.compare_spec ey eu) as [E|L|G].
  - subst eu. intros H. apply sc_mono; [unfold canonical in Cy; lia|].
    rewrite Pos.compare_cont_spec in H. simpl in H.
    destruct (Pos.compare_spec my mu); try discriminate; lia.
  - intros _. pose proof (canonical_lt my ey Cy) as U.
    pose proof (digits2_pos_spec mu) as [Dm _].
    assert (Du : Zpos (digits2_pos mu) = 53) by (unfold canonical in *; lia).
    rewrite Du in Dm.
    pose proof (sc_ge_pow (Zpos mu) eu 52 ltac:(unfold canonical in *; lia) ltac:(lia) Dm).
    assert (2 ^ (53 + ey + 1074) <= 2 ^ (52 + eu + 1074))
      by (apply pow2_le; unfold canonical in *; lia).
    lia.
  - discriminate.
Qed.

Lemma sub_nonneg u y :
  valid u = true -> valid y = true -> nonneg y -> leb y u = true ->
  nonneg (sub u y).
Proof.
  intros Vu Vy Ny L.
  destruct y as [sy|sy| |sy my ey], u as [su|su| |su mu eu];
    try discriminate L; cbn [nonneg] in Ny;
    try (destruct sy, su; try discriminate L; simpl; tauto).
  - (* 0 <= u finite *)
    destruct su; [discriminate L|]. simpl.
    apply valid_finite in Vu. tauto.
  - (* both finite *)
    destruct Ny as (-> & _). destruct su; [discriminate L|].
    apply valid_finite in Vu as (Cu & _). apply valid_finite in Vy as (Cy & Ey & _).
    pose proof (leb_sc _ _ _ _ Cy Cu L) as S.
    unfold sub, SFsub. cbn [cond_Zopp].
    change IntDef.Z.min with Z.min in *.
    destruct (shl_align mu eu (Z.min eu ey)) as [mu' eu'] eqn:Au.
    destruct (shl_align my ey (Z.min eu ey)) as [my' ey'] eqn:Ay.
    apply shl_align_spec in Au as (Eu' & Mu & _).
    apply shl_align_spec in Ay as (Ey' & My & _).
    cbn [fst].
    assert (Cu' : -1074 <= eu) by (unfold canonical in Cu; lia).
    assert (G : Zpos my' <= Zpos mu').
    { assert (sc (Zpos my') ey' <= sc (Zpos mu') eu').
      { rewrite My, Mu, !sc_shift by lia.
        now replace (ey' + (ey - ey')) with ey by lia;
          replace (eu' + (eu - eu')) with eu by lia. }
      assert (X : eu' = ey') by lia.
      assert (P : 0 < 2 ^ (ey' + 1074)) by (apply pow2_pos; lia).
      rewrite X in H. unfold sc in H. nia. }
    destruct (Zpos mu' - Zpos my') as [|d|d] eqn:Df; try lia.
    + exact I.
    + apply shaped_nonneg. cbn [binary_normalize]. apply binary_round_shape.
Qed.

Lemma mul_nonneg d sl :
  nonneg d -> ltb zero sl = true -> nonneg (mul d sl).
Proof.
  intros Nd L.
  destruct sl as [ss|ss| |ss ms es]; try discriminate L;
    destruct ss; try discriminate L;
    destruct d as [sd|sd| |sd md ed]; cbn [nonneg] in Nd;
    try (simpl; tauto); try (destruct Nd as (-> & _)); try subst sd;
    try (simpl; tauto).
  apply shaped_nonneg. unfold mul, SFmul. cbn [xorb].
  apply binary_round_aux_shape. lia.
Qed.

(** Adding a quantity that is not negative to a number that is not
    negative does not lower the rounded integer. *)
Lemma add_ival y t a b :
  valid y = true -> nonneg y -> nonneg t ->
  to_int64 (rint (add y t)) = Some a ->
  to_int64 (rint y) = Some b ->
  b <= a.
Proof.
  intros Vy Ny Nt Ha Hb.
  pose proof (to_int64_rint y b Ny Hb) as ->.
  destruct t as [st|st| |st mt et]; cbn [nonneg] in Nt.
  - (* t is a zero *)
    destruct y as [sy|sy| |sy my ey]; try discriminate Hb.
    + assert (exists s, add (S754_zero sy) (S754_zero st) = S754_zero s) as [s E]
        by (destruct sy, st; eexists; reflexivity).
      rewrite E in Ha. simpl in Ha. inversion Ha. simpl. lia.
    + change (add (S754_finite sy my ey) (S754_zero st)) with (S754_finite sy my ey) in Ha.
      rewrite Ha in Hb. inversion Hb; subst.
      pose proof (to_int64_rint _ _ Ny Ha). lia.
  - (* t is infinite *)
    subst st. destruct y as [sy|sy| |sy my ey]; try discriminate Hb;
      try discriminate Ha.
  - destruct y; discriminate Ha.
  - destruct Nt as (-> & Et & Mt).
    destruct y as [sy|sy| |sy my ey]; try discriminate Hb.
    + (* y is a zero *)
      change (add (S754_zero sy) (S754_finite false mt et))
        with (S754_finite false mt et) in Ha.
      assert (N : nonneg (S754_finite false mt et)) by (simpl; tauto).
      rewrite (to_int64_rint _ _ N Ha). simpl ival at 1. apply ival_nonneg.
    + (* both finite *)
      destruct Ny as (-> & _).
      apply valid_finite in Vy as (Cy & Ey & My).
      unfold add, SFadd in Ha. cbn [cond_Zopp] in Ha.
      change IntDef.Z.min with Z.min in *.
      destruct (shl_align my ey (Z.min ey et)) as [my' ey'] eqn:Ay.
      destruct (shl_align mt et (Z.min ey et)) as [mt' et'] eqn:At.
      apply shl_align_spec in Ay as (Ey' & My' & _).
      apply shl_align_spec in At as (Et' & Mt' & _).
      cbn [fst] in Ha.
      change (Zpos my' + Zpos mt') with (Zpos (my' + mt')) in Ha.
      cbn [binary_normalize] in Ha.
      assert (S : sc (Zpos my) ey <= sc (Zpos (my' + mt')) (Z.min ey et)).
      { replace (Z.min ey et) with ey' by lia.
        assert (Q : sc (Zpos my) ey = sc (Zpos my') ey').
        { rewrite My', sc_shift by lia.
          now replace (ey' + (ey - ey')) with ey by lia. }
        rewrite Q. apply sc_mono; lia. }
      destruct (binary_round_lower (my' + mt') (Z.min ey et) my ey ltac:(lia) Cy S)
        as [E|(mr & er & E & Er & Mr & Sr)]; rewrite E in Ha.
      * discriminate Ha.
      * assert (N : nonneg (S754_finite false mr er)) by (simpl; tauto).
        rewrite (to_int64_rint _ _ N Ha). cbn [ival].
        rewrite !rint_mag_nearest by lia. now apply nearest_mono.
Qed.

End B64Facts.

(** ** Properties of the inventory computation *)

Import B64 B64Facts FreshCastForecaster.

Lemma clip_lower0_nonneg y :
  valid y = true ->
  valid (clip_lower0 y) = true /\ nonneg (clip_lower0 y).
Proof.
  intros V. unfold clip_lower0.
  destruct y as [s|s| |s m e]; try (destruct s); cbn; auto.
  split; [exact V|]. apply valid_finite in V. tauto.
Qed.

Lemma inventory_row_covers sl y lo up d o :
  valid y = true -> valid up = true -> ltb zero sl = true ->
  leb (clip_lower0 y) up = true ->
  inventory_row sl {| ds := d; yhat := clip_lower0 y;
                      yhat_lower := lo; yhat_upper := up |} = Some o ->
  inv_ds o = d /\ expected_demand o <= recommended_production o.
Proof.
  intros Vy Vu Ls L. unfold inventory_row, recommended_float, expected_float.
  cbn [yhat yhat_upper ds].
  destruct (clip_lower0_nonneg y Vy) as [Vc Nc].
  destruct (to_int64 (rint (add (clip_lower0 y)
                               (mul (sub up (clip_lower0 y)) sl)))) as [a|] eqn:A;
    [|discriminate].
  destruct (to_int64 (rint (clip_lower0 y))) as [b|] eqn:B; [|discriminate].
  intros H. inversion H; subst; clear H. cbn. split; [reflexivity|].
  apply (add_ival (clip_lower0 y) (mul (sub up (clip_lower0 y)) sl)); auto.
  apply mul_nonneg; [|exact Ls]. now apply sub_nonneg.
Qed.

(** The casts of a row are defined. *)
Definition castable (service_level : float64) (p : ForecastRow) : Prop :=
  to_int64 (recommended_float service_level p) <> None
  /\ to_int64 (expected_float p) <> None.

Lemma inventory_row_some sl p :
  castable sl p <-> inventory_row sl p <> None.
Proof.
  unfold castable, inventory_row.
  destruct (to_int64 (recommended_float sl p)), (to_int64 (expected_float p));
    split; try congruence; intros H; try (split; congruence); tauto.
Qed.

Lemma all_rows_some sl forecast :
  Forall (castable sl) forecast <-> all_rows sl forecast <> None.
Proof.
  induction forecast as [|p rest IH]; cbn [all_rows].
  - split; [discriminate | constructor].
  - split.
    + intros H. inversion H as [|? ? Hp Hr]; subst.
      apply inventory_row_some in Hp. apply IH in Hr.
      destruct (inventory_row sl p), (all_rows sl rest); congruence.
    + intros H. constructor.
      * apply inventory_row_some. destruct (inventory_row sl p); congruence.
      * apply IH. destruct (inventory_row sl p), (all_rows sl rest); congruence.
Qed.


Definition sample_forecast : list ForecastRow :=
  [ {| ds := 1; yhat := of_Z 10; yhat_lower := of_Z 5; yhat_upper := of_Z 20 |};
    {| ds := 2; yhat := of_Z (-3); yhat_lower := of_Z (-5); yhat_upper := of_Z 2 |} ].


(** ** Further properties of the router *)

Module RouterFacts.
Import Str Re StrFacts ReFacts.

Lemma lower_char_idem c : lower_char (lower_char c) = lower_char c.
Proof. destruct c as [[] [] [] [] [] [] [] []]; vm_compute; reflexivity. Qed.

Lemma lower_idem s : lower (lower s) = lower s.
Proof.
  induction s as [|c s IH]; simpl; [reflexivity|].
  now rewrite lower_char_idem, IH.
Qed.

Lemma length_lower s : String.length (lower s) = String.length s.
Proof. induction s as [|c s IH]; simpl; [reflexivity | now rewrite IH]. Qed.

(** Inversion of [matches], constructor by constructor. *)
Lemma matches_lit p w : matches (Lit p) w -> w = p.
Proof. intros H. now inversion H. Qed.

Lemma matches_seq r1 r2 w :
  matches (Seq r1 r2) w ->
  exists w1 w2, w = w1 ++ w2 /\ matches r1 w1 /\ matches r2 w2.
Proof. intros H. inversion H; subst. now eexists _, _. Qed.

Lemma matches_star c w : matches (Star c) w -> Str.forallb (mem c) w = true.
Proof. intros H. now inversion H. Qed.

Lemma matches_star_lazy c w :
  matches (StarLazy c) w -> Str.forallb (mem c) w = true.
Proof. intros H. now inversion H. Qed.

Lemma matches_group n r w : matches (Group n r) w -> matches r w.
Proof. intros H. now inversion H. Qed.

Lemma contains_mid (a sub b s : string) :
  s = a ++ sub ++ b -> contains sub s = true.
Proof. intros ->. apply contains_app. Qed.

(** The counting loops, as a count. *)
Definition hits (keywords : list string) (query_lower : string) : nat :=
  List.length (filter (fun keyword => contains keyword query_lower) keywords).

Lemma count_keywords_hits keywords query_lower score :
  count_keywords keywords query_lower score
  = (score + hits keywords query_lower)%nat.
Proof.
  unfold hits. revert score.
  induction keywords as [|k rest IH]; intros score; simpl; [lia|].
  rewrite IH. destruct (contains k query_lower); simpl; lia.
Qed.

Lemma score_table_hits table query_lower score :
  score_table table query_lower score
  = (score + hits (flat_map snd table) query_lower)%nat.
Proof.
  unfold hits. revert score.
  induction table as [|[name keywords] rest IH]; intros score; simpl; [lia|].
  rewrite IH, count_keywords_hits. unfold hits.
  rewrite filter_app, List.length_app. lia.
Qed.

Lemma hits_le keywords query_lower :
  (hits keywords query_lower <= List.length keywords)%nat.
Proof. apply filter_length_le. Qed.

(** Distinct keywords that all occur each count once. *)
Lemma hits_ge found_words keywords query_lower :
  NoDup found_words -> incl found_words keywords ->
  (forall k, In k found_words -> contains k query_lower = true) ->
  (List.length found_words <= hits keywords query_lower)%nat.
Proof.
  intros ND I H. unfold hits. apply NoDup_incl_length; [exact ND|].
  intros k Hk. apply filter_In. split; [now apply I | now apply H].
Qed.

Lemma contains_trans (k sub s : string) :
  contains k sub = true -> contains sub s = true -> contains k s = true.
Proof.
  intros H1 H2. apply contains_split in H1 as (a & b & ->).
  apply contains_split in H2 as (a' & b' & ->).
  apply contains_iff. exists (a' ++ a), (b ++ b').
  now rewrite !app_assoc.
Qed.

(** No line feed in the text: what [.*] can run over. *)
Definition one_line (w : string) : bool := Str.forallb (mem Dot) w.

(** what.*(do|should).*(we|i).*need, read as a shape of the text *)
Lemma pattern2_found s :
  found pattern2 s = true <->
  exists a w1 g1 w2 g2 w3 b,
    s = a ++ "what" ++ w1 ++ g1 ++ w2 ++ g2 ++ w3 ++ "need" ++ b
    /\ In g1 ["do"; "should"] /\ In g2 ["we"; "i"]
    /\ one_line w1 = true /\ one_line w2 = true /\ one_line w3 = true.
Proof.
  rewrite found_iff. split.
  - intros (a & w & b & -> & M). unfold pattern2 in M.
    apply matches_seq in M as (x0 & r0 & -> & M0 & M).
    apply matches_lit in M0 as ->.
    apply matches_seq in M as (w1 & r1 & -> & M1 & M).
    apply matches_star in M1.
    apply matches_seq in M as (g1 & r2 & -> & G1 & M).
    apply matches_group, alts_inv in G1.
    apply matches_seq in M as (w2 & r3 & -> & M2 & M).
    apply matches_star in M2.
    apply matches_seq in M as (g2 & r4 & -> & G2 & M).
    apply matches_group, alts_inv in G2.
    apply matches_seq in M as (w3 & r5 & -> & M3 & M).
    apply matches_star in M3. apply matches_lit in M as ->.
    exists a, w1, g1, w2, g2, w3, b. rewrite !app_assoc. tauto.
  - intros (a & w1 & g1 & w2 & g2 & w3 & b & -> & G1 & G2 & L1 & L2 & L3).
    exists a, ("what" ++ w1 ++ g1 ++ w2 ++ g2 ++ w3 ++ "need"), b.
    split; [now rewrite !app_assoc|]. unfold pattern2.
    apply M_Seq; [constructor|]. apply M_Seq; [now constructor|].
    apply M_Seq; [constructor; now apply alts_matches|].
    apply M_Seq; [now constructor|].
    apply M_Seq; [constructor; now apply alts_matches|].
    apply M_Seq; [now constructor | constructor].
Qed.

(** where.*(buy|find|purchase|get), read as a shape of the text *)
Lemma pattern4_found s :
  found pattern4 s = true <->
  exists a w g b,
    s = a ++ "where" ++ w ++ g ++ b
    /\ In g ["buy"; "find"; "purchase"; "get"] /\ one_line w = true.
Proof.
  rewrite found_iff. split.
  - intros (a & w & b & -> & M). unfold pattern4 in M.
    apply matches_seq in M as (x0 & r0 & -> & M0 & M).
    apply matches_lit in M0 as ->.
    apply matches_seq in M as (w1 & g & -> & M1 & G).
    apply matches_star in M1. apply matches_group, alts_inv in G.
    exists a, w1, g, b. rewrite !app_assoc. tauto.
  - intros (a & w & g & b & -> & G & L).
    exists a, ("where" ++ w ++ g), b.
    split; [now rewrite !app_assoc|]. unfold pattern4.
    apply M_Seq; [constructor|]. apply M_Seq; [now constructor|].
    constructor. now apply alts_matches.
Qed.

(** how (many|much).*?(croissant|...|muffin), read as a shape of the text *)
Lemma pattern1_found s :
  found pattern1 s = true <->
  exists a qp mid p b,
    s = a ++ qp ++ mid ++ p ++ b
    /\ In qp quantity_phrases /\ In p pattern1_products
    /\ one_line mid = true.
Proof.
  rewrite found_iff. split.
  - intros (a & w & b & -> & M). unfold pattern1 in M.
    apply matches_seq in M as (x0 & r0 & -> & M0 & M).
    apply matches_lit in M0 as ->.
    apply matches_seq in M as (g1 & r1 & -> & G1 & M).
    apply matches_group, alts_inv in G1.
    apply matches_seq in M as (mid & g2 & -> & M1 & G2).
    apply matches_star_lazy in M1. apply matches_group, alts_inv in G2.
    exists a, ("how " ++ g1), mid, g2, b. rewrite !app_assoc.
    split; [reflexivity|]. split; [|tauto].
    destruct G1 as [<-|[<-|[]]]; simpl; tauto.
  - intros (a & qp & mid & p & b & -> & Q & P & L).
    exists a, (qp ++ mid ++ p), b.
    split; [now rewrite !app_assoc|]. now apply pattern1_matches.
Qed.

(** The horizon extraction either returns a non-negative number or
    refuses a digit run that is longer than the limit of [int]. *)
Lemma extract_time_lower_cases max_str_digits query_lower :
  (exists n, extract_time_lower max_str_digits query_lower = Ok n /\ 0 <= n)
  \/ (extract_time_lower max_str_digits query_lower = ValueError
      /\ exists pre ds ws u post,
          query_lower = pre ++ ds ++ ws ++ u ++ post
          /\ (0 < max_str_digits < String.length ds)%nat).
Proof.
  unfold extract_time_lower.
  destruct (contains "today" query_lower); [left; exists 1; split; [reflexivity|lia]|].
  destruct (contains "tomorrow" query_lower); [left; exists 1; split; [reflexivity|lia]|].
  destruct (contains "next week" query_lower || contains "this week" query_lower);
    [left; exists 7; split; [reflexivity|lia]|].
  destruct (contains "next month" query_lower); [left; exists 30; split; [reflexivity|lia]|].
  destruct (search time_pattern query_lower) as [m|] eqn:S;
    [|left; exists 7; split; [reflexivity|lia]].
  apply TimeFacts.time_search_inv in S
    as (pre & ds & ws & u & post & E & Hne & Hds & Hws & Hu & ->).
  rewrite (time_of_match_eval max_str_digits ds u Hne Hds Hu).
  unfold too_long.
  destruct ((0 <? max_str_digits)%nat
            && (max_str_digits <? String.length ds)%nat) eqn:L.
  - right. split; [reflexivity|].
    apply andb_true_iff in L as [L1 L2]. apply Nat.ltb_lt in L1, L2.
    exists pre, ds, ws, u, post. split; [exact E | lia].
  - left. eexists. split; [reflexivity|].
    assert (V : 0 <= PyInt.value ds)
      by (apply TimeFacts.value_from_nonneg; [exact Hds | lia]).
    assert (U : 1 <= unit_days u)
      by (destruct Hu as [<-|[<-|[<-|[]]]]; vm_compute; discriminate).
    nia.
Qed.

End RouterFacts.

(** X1: the router reads its input only through [query.lower()].  Two
    questions with the same lower-casing (a question and any
    re-capitalisation of it) get the same query type and confidence, the
    same product and the same horizon, and [route] fails or succeeds on
    both alike, the two decisions differing in [original_query] only;
    lower-casing twice is lower-casing once, so the lower-cased question
    is one of these. *)
Theorem routing_ignores_case (max_str_digits : nat) (query query' : string) :
  Str.lower query = Str.lower query' ->
  classify_query query = classify_query query'
  /\ extract_product query = extract_product query'
  /\ extract_time_period max_str_digits query
     = extract_time_period max_str_digits query'
  /\ route max_str_digits query' =
     match route max_str_digits query with
     | Ok d => Ok {| query_type := query_type d; confidence := confidence d;
                     product := product d; time_period := time_period d;
                     use_ml := use_ml d; use_llm := use_llm d;
                     original_query := query' |}
     | ValueError => ValueError
     | TypeError => TypeError
     end
  /\ Str.lower (Str.lower query) = Str.lower query.
Proof.
  intros E.
  assert (C : classify_query query = classify_query query')
    by (unfold classify_query; now rewrite E).
  assert (P : extract_product query = extract_product query')
    by (unfold extract_product; now rewrite E).
  assert (T : extract_time_period max_str_digits query
              = extract_time_period max_str_digits query')
    by (unfold extract_time_period; now rewrite E).
  repeat split; try assumption; [|apply RouterFacts.lower_idem].
  unfold route. rewrite <- C, <- P, <- T.
  destruct (classify_query query) as [qt conf].
  now destruct (extract_time_period max_str_digits query).
Qed.

Lemma routing_ignores_case_witness :
  classify_query "HOW MANY Croissants TOMORROW?"
  = classify_query "how many croissants tomorrow?"
  /\ extract_product "HOW MANY Croissants TOMORROW?" = Some "Croissant".
Proof.
  split; [|reflexivity].
  apply (routing_ignores_case 4300 "HOW MANY Croissants TOMORROW?"
           "how many croissants tomorrow?" eq_refl).
Defined.

(** The nine answers of the classifier, in the order of its rules. *)
Definition classify_outcomes : list (QueryType * Q) :=
  [ (FORECAST_DEMAND, 0.9%Q); (RAW_MATERIALS, 0.85%Q); (INVENTORY_NEEDS, 0.85%Q);
    (INVENTORY_NEEDS, 0.8%Q); (SUPPLIER_INFO, 0.9%Q); (BUSINESS_ADVICE, 0.85%Q);
    (FORECAST_DEMAND, 0.6%Q); (BUSINESS_ADVICE, 0.6%Q); (GENERAL_QUESTION, 0.5%Q) ].

(** X2: whatever the question, [classify_query] returns one of nine
    (type, confidence) pairs; the confidence lies between 0.5 and 0.9,
    it is 0.5 exactly for GENERAL_QUESTION, RAW_MATERIALS always comes
    with 0.85 and SUPPLIER_INFO with 0.9. *)
Theorem classify_query_outcomes (query : string) :
  let r := classify_query query in
  In r classify_outcomes
  /\ (0.5 <= snd r <= 0.9)%Q
  /\ (fst r = GENERAL_QUESTION <-> snd r = 0.5%Q)
  /\ (fst r = RAW_MATERIALS -> snd r = 0.85%Q)
  /\ (fst r = SUPPLIER_INFO -> snd r = 0.9%Q).
Proof.
  intros r. subst r. unfold classify_query, classify_lower.
  repeat match goal with
         | |- context [if ?c then _ else _] => destruct c
         end;
    (split; [simpl; tauto|]);
    (split; [split; vm_compute; discriminate|]);
    simpl; repeat split; intros; congruence.
Qed.

Lemma classify_query_outcomes_witness :
  snd (classify_query "What flour do we need?") = 0.85%Q.
Proof.
  apply (proj1 (proj2 (proj2 (proj2 (classify_query_outcomes
                                       "What flour do we need?"))))).
  reflexivity.
Defined.

(** X3: the classifier answers (FORECAST_DEMAND, 0.9) exactly when the
    lower-cased question holds "how many" or "how much" and, after it on
    the same line, one of croissant, baguette, sourdough, sandwich, donut,
    muffin; a forecast that is not of this shape comes with confidence
    0.6. *)
Theorem forecast_demand_sure_iff (query : string) :
  let query_lower := Str.lower query in
  (classify_query query = (FORECAST_DEMAND, 0.9%Q) <->
   exists a qp mid p b,
     query_lower = a ++ qp ++ mid ++ p ++ b
     /\ In qp ["how many"; "how much"]
     /\ In p ["croissant"; "baguette"; "sourdough"; "sandwich"; "donut"; "muffin"]
     /\ RouterFacts.one_line mid = true)
  /\ (fst (classify_query query) = FORECAST_DEMAND ->
      Re.found pattern1 query_lower = false ->
      classify_query query = (FORECAST_DEMAND, 0.6%Q)).
Proof.
  intros ql.
  change (In ?qp ["how many"; "how much"]) with (In qp quantity_phrases).
  split.
  - rewrite <- (RouterFacts.pattern1_found ql).
    unfold classify_query, classify_lower. fold ql.
    destruct (Re.found pattern1 ql); [tauto|].
    split; [|discriminate].
    repeat match goal with
           | |- context [if ?c then _ else _] => destruct c
           end; discriminate.
  - unfold classify_query, classify_lower. fold ql.
    intros H P. rewrite P in H |- *.
    repeat match goal with
           | |- context [if ?c then _ else _] => destruct c
           end; try discriminate H; reflexivity.
Qed.

Lemma forecast_demand_sure_iff_witness :
  classify_query "Tell me HOW MUCH sourdough to bake" = (FORECAST_DEMAND, 0.9%Q).
Proof.
  apply (proj2 (proj1 (forecast_demand_sure_iff "Tell me HOW MUCH sourdough to bake"))).
  exists "tell me ", "how much", " ", "sourdough", " to bake".
  repeat split; simpl; auto.
Defined.

(** X4: a question is classified RAW_MATERIALS exactly when its
    lower-cased text has, on one line and in this order, "what", then "do"
    or "should", then "we" or "i", then "need", names one of ingredient,
    material, flour, eggs, and is not a "how many / how much <product>"
    question; without "need" no question about materials gets this
    type. *)
Theorem raw_materials_iff (query : string) :
  let query_lower := Str.lower query in
  (classify_query query = (RAW_MATERIALS, 0.85%Q) <->
   Re.found pattern1 query_lower = false
   /\ (exists a w1 g1 w2 g2 w3 b,
          query_lower = a ++ "what" ++ w1 ++ g1 ++ w2 ++ g2 ++ w3 ++ "need" ++ b
          /\ In g1 ["do"; "should"] /\ In g2 ["we"; "i"]
          /\ RouterFacts.one_line w1 = true /\ RouterFacts.one_line w2 = true
          /\ RouterFacts.one_line w3 = true)
   /\ any_in ["ingredient"; "material"; "flour"; "eggs"] query_lower = true)
  /\ (fst (classify_query query) = RAW_MATERIALS ->
      Str.contains "what" query_lower = true
      /\ Str.contains "need" query_lower = true).
Proof.
  intros ql.
  assert (S : fst (classify_query query) = RAW_MATERIALS ->
              Re.found pattern1 ql = false /\ Re.found pattern2 ql = true
              /\ any_in ["ingredient"; "material"; "flour"; "eggs"] ql = true).
  { unfold classify_query, classify_lower. fold ql.
    destruct (Re.found pattern1 ql); [discriminate|].
    destruct (Re.found pattern2 ql).
    - destruct (any_in _ ql); [tauto | discriminate].
    - repeat match goal with
             | |- context [if ?c then _ else _] => destruct c
             end; discriminate. }
  split; [split|].
  - intros H. destruct S as (P1 & P2 & I); [now rewrite H|].
    apply RouterFacts.pattern2_found in P2. tauto.
  - intros (P1 & P2 & I). apply RouterFacts.pattern2_found in P2.
    unfold classify_query, classify_lower. fold ql. now rewrite P1, P2, I.
  - intros H. destruct (S H) as (_ & P2 & _).
    apply RouterFacts.pattern2_found in P2
      as (a & w1 & g1 & w2 & g2 & w3 & b & E & _).
    split.
    + now apply (RouterFacts.contains_mid a "what" (w1 ++ g1 ++ w2 ++ g2 ++ w3 ++ "need" ++ b)).
    + apply (RouterFacts.contains_mid
               (a ++ "what" ++ w1 ++ g1 ++ w2 ++ g2 ++ w3) "need" b).
      now rewrite E, !StrFacts.app_assoc.
Qed.

Lemma raw_materials_iff_witness :
  classify_query "What flour do we need?" = (RAW_MATERIALS, 0.85%Q).
Proof.
  apply (proj1 (raw_materials_iff "What flour do we need?")).
  split; [reflexivity|]. split; [|reflexivity].
  exists "", " flour ", "do", " ", "we", " ", "?".
  repeat split; simpl; auto.
Defined.

(** X5: a question that mentions production, inventory or stock is never
    handed to the assistant.  Its type is FORECAST_DEMAND, RAW_MATERIALS
    or INVENTORY_NEEDS, whatever else it says ("where ... buy",
    "should i", "recommend"); it is (INVENTORY_NEEDS, 0.8) unless one of
    the two earlier pattern rules fires; and [route] sets [use_ml] and
    clears [use_llm]. *)
Theorem stock_words_use_forecaster (max_str_digits : nat) (query : string) :
  any_in ["production"; "inventory"; "stock"] (Str.lower query) = true ->
  In (fst (classify_query query)) [FORECAST_DEMAND; RAW_MATERIALS; INVENTORY_NEEDS]
  /\ (Re.found pattern1 (Str.lower query) = false ->
      Re.found pattern2 (Str.lower query) = false ->
      classify_query query = (INVENTORY_NEEDS, 0.8%Q))
  /\ forall d, route max_str_digits query = Ok d ->
               use_ml d = true /\ use_llm d = false.
Proof.
  intros H.
  assert (T : In (fst (classify_query query))
                 [FORECAST_DEMAND; RAW_MATERIALS; INVENTORY_NEEDS]).
  { unfold classify_query, classify_lower. rewrite H.
    destruct (Re.found pattern1 _); [simpl; auto|].
    destruct (Re.found pattern2 _); [|simpl; auto].
    destruct (any_in ["ingredient"; "material"; "flour"; "eggs"] _);
      simpl; auto. }
  split; [exact T|]. split.
  - intros P1 P2. unfold classify_query, classify_lower. now rewrite P1, P2, H.
  - intros d R. unfold route in R.
    destruct (classify_query query) as [qt conf].
    destruct (extract_time_period max_str_digits query); try discriminate.
    inversion R; subst; clear R. cbn [use_ml use_llm]. simpl in T.
    destruct T as [<-|[<-|[<-|[]]]]; split; reflexivity.
Qed.

Lemma stock_words_use_forecaster_witness :
  classify_query "Where can I buy stock, do you recommend it?"
  = (INVENTORY_NEEDS, 0.8%Q).
Proof.
  apply (proj1 (proj2 (stock_words_use_forecaster 4300
           "Where can I buy stock, do you recommend it?" eq_refl)));
    reflexivity.
Defined.

(** X6: a question is classified SUPPLIER_INFO exactly when its
    lower-cased text has "where" followed on the same line by buy, find,
    purchase or get, mentions none of production, inventory, stock, and
    neither of the two earlier pattern rules fires. *)
Theorem supplier_info_iff (query : string) :
  let query_lower := Str.lower query in
  classify_query query = (SUPPLIER_INFO, 0.9%Q) <->
  Re.found pattern1 query_lower = false
  /\ Re.found pattern2 query_lower = false
  /\ any_in ["production"; "inventory"; "stock"] query_lower = false
  /\ exists a w g b,
      query_lower = a ++ "where" ++ w ++ g ++ b
      /\ In g ["buy"; "find"; "purchase"; "get"]
      /\ RouterFacts.one_line w = true.
Proof.
  intros ql. rewrite <- RouterFacts.pattern4_found.
  unfold classify_query, classify_lower. fold ql.
  destruct (Re.found pattern1 ql); [split; [discriminate | intros [? _]; discriminate]|].
  destruct (Re.found pattern2 ql).
  { split; [destruct (any_in _ ql); discriminate | intros (_ & ? & _); discriminate]. }
  destruct (any_in ["production"; "inventory"; "stock"] ql);
    [split; [discriminate | intros (_ & _ & ? & _); discriminate]|].
  destruct (Re.found pattern4 ql); [now repeat split|].
  split; [|intros (_ & _ & _ & ?); discriminate].
  repeat match goal with
         | |- context [if ?c then _ else _] => destruct c
         end; discriminate.
Qed.

Lemma supplier_info_iff_witness :
  classify_query "Where do bakers get yeast?" = (SUPPLIER_INFO, 0.9%Q).
Proof.
  apply (proj2 (supplier_info_iff "Where do bakers get yeast?")).
  split; [reflexivity|]. split; [reflexivity|]. split; [reflexivity|].
  exists "", " do bakers ", "get", " yeast?".
  repeat split; simpl; auto.
Defined.

(** X7: each of the two keyword scores is the number of keywords of its
    table that occur in the lower-cased question, every keyword counting
    once however often it occurs; the forecasting score is at most 33 and
    the assistant score at most 23; and a keyword that holds other
    keywords counts together with them: "next week" alone scores 3
    ("next week", "next", "week"), "today" scores 2 ("today", "day"). *)
Theorem keyword_scores_count (query_lower : string) :
  (forall table score,
      score_table table query_lower score
      = (score + List.length
                   (filter (fun keyword => Str.contains keyword query_lower)
                           (flat_map snd table)))%nat)
  /\ (score_table ml_keywords query_lower 0 <= 33)%nat
  /\ (score_table llm_keywords query_lower 0 <= 23)%nat
  /\ (Str.contains "next week" query_lower = true ->
      (3 <= score_table ml_keywords query_lower 0)%nat)
  /\ (Str.contains "today" query_lower = true ->
      (2 <= score_table ml_keywords query_lower 0)%nat).
Proof.
  split; [intros; apply RouterFacts.score_table_hits|].
  rewrite !RouterFacts.score_table_hits. cbn [Nat.add].
  split; [apply (RouterFacts.hits_le (flat_map snd ml_keywords))|].
  split; [apply (RouterFacts.hits_le (flat_map snd llm_keywords))|].
  split; intros H.
  - apply (RouterFacts.hits_ge ["next week"; "next"; "week"]).
    + repeat constructor; simpl; intuition discriminate.
    + intros k Hk. simpl in Hk |- *. intuition (subst; tauto).
    + intros k [<-|[<-|[<-|[]]]]; [exact H| |];
        (eapply RouterFacts.contains_trans; [|exact H]); reflexivity.
  - apply (RouterFacts.hits_ge ["today"; "day"]).
    + repeat constructor; simpl; intuition discriminate.
    + intros k Hk. simpl in Hk |- *. intuition (subst; tauto).
    + intros k [<-|[<-|[]]]; [exact H|].
      (eapply RouterFacts.contains_trans; [|exact H]); reflexivity.
Qed.

Lemma keyword_scores_count_witness :
  (3 <= score_table ml_keywords "anything next week" 0)%nat.
Proof.
  apply (proj1 (proj2 (proj2 (proj2 (keyword_scores_count "anything next week"))))).
  reflexivity.
Defined.

(** X8: [route] raises only on a question longer than the limit of [int]
    on decimal strings: with the limit switched off, or a question of at
    most that many characters, it returns a decision; it never raises a
    TypeError; and the decision it returns holds the classifier's type
    and confidence, the extracted product, a non-negative horizon and the
    question itself, unchanged. *)
Theorem route_total (max_str_digits : nat) (query : string) :
  ((max_str_digits = 0%nat \/ (String.length query <= max_str_digits)%nat) ->
   exists d, route max_str_digits query = Ok d)
  /\ route max_str_digits query <> TypeError
  /\ (forall d, route max_str_digits query = Ok d ->
        (query_type d, confidence d) = classify_query query
        /\ product d = extract_product query
        /\ extract_time_period max_str_digits query = Ok (time_period d)
        /\ 0 <= time_period d
        /\ original_query d = query).
Proof.
  unfold route, extract_time_period.
  destruct (classify_query query) as [qt conf].
  destruct (RouterFacts.extract_time_lower_cases max_str_digits (Str.lower query))
    as [(n & -> & Hn) | (-> & pre & ds & ws & u & post & E & L)].
  - split; [intros _; eexists; reflexivity|]. split; [discriminate|].
    intros d H. inversion H; subst; clear H. cbn. auto.
  - split; [|split; discriminate]. intros B. exfalso.
    apply (f_equal String.length) in E.
    rewrite RouterFacts.length_lower, !StrFacts.length_app in E. lia.
Qed.

Lemma route_total_witness :
  exists d, route 4300 "Forecast for 3 weeks" = Ok d.
Proof.
  apply (proj1 (route_total 4300 "Forecast for 3 weeks")).
  right. vm_compute. lia.
Defined.

(** ** Further properties of the inventory computation *)

Module InventoryFacts.



Lemma clip_lower0_negative y : ltb y zero = true -> clip_lower0 y = zero.
Proof. intros H. unfold clip_lower0. now rewrite H. Qed.

(** A number that is not positive: a zero, a negative finite number,
    minus infinity. *)
Definition nonpos (x : float64) : Prop :=
  match x with
  | S754_zero _ => True
  | S754_infinity s => s = true
  | S754_finite s _ _ => s = true
  | S754_nan => False
  end.

Lemma shaped_nonpos x : shaped true x -> nonpos x.
Proof. destruct x; simpl; tauto. Qed.

Lemma rint_nonpos x : nonpos x -> nonpos (rint x).
Proof.
  destruct x as [s|s| |s m e]; cbn [nonpos]; try tauto.
  intros ->. destruct e as [|k|k]; cbn [rint nonpos]; try reflexivity.
  pose proof (rint_mag_nonneg m (Zneg k)) as N.
  destruct (rint_mag m (Zneg k)) as [|n|n]; cbn [nonpos]; [exact I| |lia].
  apply shaped_nonpos. apply binary_round_shape.
Qed.

Lemma to_int64_nonpos x z : nonpos x -> to_int64 x = Some z -> z <= 0.
Proof.
  destruct x as [s|s| |s m e]; cbn [nonpos to_int64]; try discriminate.
  - intros _ H. inversion H. lia.
  - intros -> H.
    destruct (_ && _) in H; [|discriminate]. inversion H; subst; clear H.
    destruct e as [|k|k].
    + rewrite Z.pow_0_r. lia.
    + assert (0 < 2 ^ Zpos k) by (apply Z.pow_pos_nonneg; lia).
      destruct (2 ^ Zpos k); lia.
    + assert (0 <= Zpos m / 2 ^ Zpos k)
        by (apply Z.div_pos; [lia | apply Z.pow_pos_nonneg; lia]). lia.
Qed.

Lemma negative_nonpos x : ltb x zero = true -> nonpos x /\ x <> S754_zero true /\ x <> S754_zero false.
Proof.
  destruct x as [s|s| |s m e]; try discriminate; destruct s; try discriminate;
    intros _; simpl; repeat split; discriminate.
Qed.

(** The recommendation on a point whose estimate was clipped to 0 and
    whose upper bound is negative. *)
Lemma recommended_nonpos sl up :
  ltb zero sl = true -> ltb up zero = true ->
  nonpos (rint (add zero (mul (sub up zero) sl))).
Proof.
  intros Ls Lu. apply rint_nonpos.
  destruct sl as [ss|ss| |ss ms es]; try discriminate Ls;
    destruct ss; try discriminate Ls;
    destruct up as [su|su| |su mu eu]; try discriminate Lu;
    destruct su; try discriminate Lu; try reflexivity.
  change (sub (S754_finite true mu eu) zero) with (S754_finite true mu eu).
  pose proof (binary_round_aux_shape true (Zpos (mu * ms)) (eu + es) loc_Exact
                ltac:(lia)) as Sh.
  change (binary_round_aux prec emax true (Zpos (mu * ms)) (eu + es) loc_Exact)
    with (mul (S754_finite true mu eu) (S754_finite false ms es)) in Sh.
  destruct (mul (S754_finite true mu eu) (S754_finite false ms es))
    as [s|s| |s m e]; cbn [shaped] in Sh; [now destruct s | exact Sh | tauto |].
  destruct Sh as (-> & _). reflexivity.
Qed.

(** Row by row: the recommendation of a point covers its expected demand. *)
Lemma all_rows_covers sl model_forecast out :
  Forall (fun r => valid (yhat r) = true /\ valid (yhat_upper r) = true)
         model_forecast ->
  Forall (fun p => leb (yhat p) (yhat_upper p) = true) (predict model_forecast) ->
  ltb zero sl = true ->
  all_rows sl (predict model_forecast) = Some out ->
  Forall (fun o => 0 <= expected_demand o <= recommended_production o) out.
Proof.
  intros V L Ls. revert out.
  induction model_forecast as [|r rest IH]; intros out H.
  - inversion H; subst. constructor.
  - change (predict (r :: rest))
      with ({| ds := ds r; yhat := clip_lower0 (yhat r);
               yhat_lower := yhat_lower r; yhat_upper := yhat_upper r |}
              :: predict rest) in H, L.
    cbn [all_rows] in H.
    inversion V as [|? ? [Vy Vu] Vr]; subst.
    inversion L as [|? ? Lp Lr]; subst. cbn [yhat yhat_upper] in Lp.
    destruct (inventory_row sl _) as [o|] eqn:R; [|discriminate].
    destruct (all_rows sl (predict rest)) as [os|] eqn:Rs; [|discriminate].
    inversion H; subst; clear H.
    constructor; [|now apply IH].
    pose proof (inventory_row_covers _ _ _ _ _ _ Vy Vu Ls Lp R) as [_ Oc].
    split; [|exact Oc].
    unfold inventory_row, expected_float in R. cbn [yhat] in R.
    destruct (to_int64 (recommended_float sl _)); [|discriminate].
    destruct (to_int64 (rint (clip_lower0 (yhat r)))) as [b|] eqn:B; [|discriminate].
    inversion R; subst. cbn [expected_demand].
    destruct (clip_lower0_nonneg (yhat r) Vy) as [_ Nc].
    rewrite (to_int64_rint _ _ Nc B). apply ival_nonneg.
Qed.






End InventoryFacts.

(** [expected_demand.sum()] *)
Definition total_demand (inventory : list InventoryRow) : Z :=
  fold_left (fun acc o => wrap64 (acc + expected_demand o)) inventory 0.


Definition forecast_below_zero : list ForecastRow :=
  [ {| ds := 1; yhat := of_Z (-3); yhat_lower := of_Z (-5); yhat_upper := of_Z (-1) |} ].


(** X10: the recommendation itself is not clipped.  On a point whose
    estimate and upper bound are both negative, with a positive service
    level, the expected demand is 0 and the recommended production is at
    most 0: an upper bound of -1 gives a recommended production of -1,
    below the expected demand. *)
Theorem negative_upper_bound_recommends_nothing
        (model_forecast : list ForecastRow) (service_level : float64)
        (out : list InventoryRow) :
  ltb zero service_level = true ->
  Forall (fun r => ltb (yhat r) zero = true /\ ltb (yhat_upper r) zero = true)
         model_forecast ->
  calculate_inventory_needs model_forecast service_level = Some out ->
  Forall (fun o => expected_demand o = 0 /\ recommended_production o <= 0) out.
Proof.
  intros Ls F. unfold calculate_inventory_needs. revert out.
  induction model_forecast as [|r rest IH]; intros out H.
  - inversion H; subst. constructor.
  - change (predict (r :: rest))
      with ({| ds := ds r; yhat := clip_lower0 (yhat r);
               yhat_lower := yhat_lower r; yhat_upper := yhat_upper r |}
              :: predict rest) in H.
    cbn [all_rows] in H. inversion F as [|? ? [Ly Lu] Fr]; subst.
    destruct (inventory_row service_level _) as [o|] eqn:R; [|discriminate].
    destruct (all_rows service_level (predict rest)) as [os|]; [|discriminate].
    inversion H; subst; clear H. constructor; [|now apply IH].
    unfold inventory_row, recommended_float, expected_float in R.
    cbn [yhat yhat_upper] in R.
    rewrite (InventoryFacts.clip_lower0_negative _ Ly) in R.
    destruct (to_int64 (rint (add zero (mul (sub (yhat_upper r) zero)
                                            service_level)))) as [a|] eqn:A;
      [|discriminate].
    change (to_int64 (rint zero)) with (Some 0) in R.
    inversion R; subst. cbn [expected_demand recommended_production].
    split; [reflexivity|].
    apply (InventoryFacts.to_int64_nonpos _ _
             (InventoryFacts.recommended_nonpos _ _ Ls Lu) A).
Qed.

Lemma negative_upper_bound_recommends_nothing_witness :
  calculate_inventory_needs forecast_below_zero lit_0_95
  = Some [ {| inv_ds := 1; expected_demand := 0; recommended_production := -1 |} ]
  /\ Forall (fun o => expected_demand o = 0 /\ recommended_production o <= 0)
            [ {| inv_ds := 1; expected_demand := 0; recommended_production := -1 |} ].
Proof.
  split; [vm_compute; reflexivity|].
  apply (negative_upper_bound_recommends_nothing forecast_below_zero lit_0_95).
  - reflexivity.
  - repeat constructor.
  - vm_compute; reflexivity.
Defined.



(** ** Upper bounds in binary64 *)

Module B64Upper.
Import B64 B64Facts.

(** [m * 2^e] in units of [2^-K]. *)
Definition scb (K m e : Z) : Z := m * 2 ^ (e + K).

Lemma scb_sc m e : sc m e = scb 1074 m e.
Proof. reflexivity. Qed.

Lemma scb_shift_down K m e e' :
  0 <= m -> 0 <= e + K -> e <= e' ->
  scb K (m / 2 ^ (e' - e)) e' <= scb K m e.
Proof.
  intros Hm He Hee. unfold scb.
  replace (e' + K) with ((e' - e) + (e + K)) by lia.
  rewrite (pow2_split (e' - e) (e + K)) by lia.
  pose proof (pow2_pos (e' - e) ltac:(lia)) as P1.
  pose proof (pow2_pos (e + K) ltac:(lia)) as P2.
  pose proof (Z.mul_div_le m (2 ^ (e' - e)) P1) as Q.
  rewrite Z.mul_assoc. apply Z.mul_le_mono_nonneg_r; lia.
Qed.

(** Rounding at most doubles a bound on the exact value. *)
Lemma binary_round_aux_upper K X sx mz ez lx :
  0 < mz -> 0 <= ez + K -> 1074 <= K ->
  scb K mz ez <= X -> 2 ^ (K - 1074) <= X -> 2 * X < 2 ^ (972 + K) ->
  match binary_round_aux prec emax sx mz ez lx with
  | S754_zero _ => True
  | S754_finite _ m e => scb K (Zpos m) e <= 2 * X
  | _ => False
  end.
Proof.
  intros Hm He HK HX HX0 HXm.
  destruct (binary_round_aux_spec sx mz ez lx (Z.lt_le_incl _ _ Hm))
    as (e1 & m1 & e2 & m2 & He1 & Hm1 & He2 & Hm2 & ->).
  rewrite fexp_eq in He1, He2.
  assert (P0 : 0 <= mz / 2 ^ (e1 - ez))
    by (apply Z.div_pos; [lia | apply pow2_pos; lia]).
  assert (U1 : scb K (mz / 2 ^ (e1 - ez)) e1 <= scb K mz ez)
    by (apply scb_shift_down; lia).
  assert (U2 : scb K m2 e2 <= scb K m1 e1)
    by (rewrite Hm2; apply scb_shift_down; lia).
  assert (Ulp : 2 ^ (e1 + K) <= X).
  { pose proof (Zdigits2_spec mz Hm) as [D _].
    pose proof (Zdigits2_pos mz Hm).
    destruct (Z.eq_dec e1 ez) as [->|N1].
    - unfold scb in HX. pose proof (pow2_pos (ez + K) ltac:(lia)). nia.
    - destruct (Z.eq_dec e1 (-1074)) as [->|N2].
      + now replace (-1074 + K) with (K - 1074) by lia.
      + assert (E : e1 = Zdigits2 mz + ez - 53) by lia.
        eapply Z.le_trans; [|exact HX].
        eapply Z.le_trans; [apply (pow2_le (e1 + K) (Zdigits2 mz - 1 + (ez + K))); lia|].
        rewrite (pow2_split (Zdigits2 mz - 1) (ez + K)) by lia.
        unfold scb. apply Z.mul_le_mono_nonneg_r; [|exact D].
        apply Z.lt_le_incl, pow2_pos. lia. }
  assert (U3 : scb K m1 e1 <= 2 * X).
  { assert (scb K m1 e1 <= scb K (mz / 2 ^ (e1 - ez)) e1 + 2 ^ (e1 + K)).
    { unfold scb. pose proof (pow2_pos (e1 + K) ltac:(lia)). nia. }
    lia. }
  assert (P2 : 0 <= m2)
    by (rewrite Hm2; apply Z.div_pos; [lia | apply pow2_pos; lia]).
  destruct m2 as [|m|m]; [exact I | | lia].
  destruct (e2 <=? emax - prec) eqn:Le; [lia|].
  apply Z.leb_gt in Le. unfold emax, prec in Le.
  assert (2 ^ (972 + K) <= scb K (Zpos m) e2).
  { unfold scb. eapply Z.le_trans; [apply (pow2_le (972 + K) (e2 + K)); lia|].
    pose proof (pow2_pos (e2 + K) ltac:(lia)). nia. }
  lia.
Qed.


(** A zero or a positive finite number of value at most [X / 2^1074]. *)
Definition below (X : Z) (x : float64) : Prop :=
  match x with
  | S754_zero _ => True
  | S754_finite s m e =>
      s = false /\ -1074 <= e /\ Zpos m < 2 ^ 53 /\ sc (Zpos m) e <= X
  | _ => False
  end.

Lemma below_nonneg X x : below X x -> nonneg x.
Proof. destruct x; simpl; tauto. Qed.

Lemma below_le X Y x : X <= Y -> below X x -> below Y x.
Proof. destruct x; simpl; intuition lia. Qed.

Lemma shaped_below X x :
  shaped false x ->
  match x with
  | S754_zero _ => True
  | S754_finite _ m e => sc (Zpos m) e <= X
  | _ => False
  end ->
  below X x.
Proof. destruct x; simpl; tauto. Qed.

Lemma binary_round_upper X mx ex :
  -1074 <= ex -> sc (Zpos mx) ex <= X -> 2 * X < 2 ^ 2046 ->
  below (2 * X) (binary_round prec emax false mx ex).
Proof.
  intros Hex HX HXm.
  apply shaped_below; [apply binary_round_shape|].
  unfold binary_round.
  destruct (shl_align mx ex (fexp prec emax (Zpos (digits2_pos mx) + ex)))
    as [mz ez] eqn:E.
  apply shl_align_spec in E as (Ez & Mz & _).
  rewrite fexp_eq in Ez.
  assert (Q : sc (Zpos mz) ez = sc (Zpos mx) ex).
  { rewrite Mz, sc_shift by lia. now replace (ez + (ex - ez)) with ex by lia. }
  assert (P : 0 < sc (Zpos mx) ex) by (apply sc_pos; lia).
  pose proof (binary_round_aux_upper 1074 X false (Zpos mz) ez loc_Exact
                ltac:(lia) ltac:(lia) ltac:(lia)) as U.
  rewrite <- scb_sc, Q in U. change (2 ^ (1074 - 1074)) with 1 in U.
  change (972 + 1074) with 2046 in U.
  specialize (U HX ltac:(lia) HXm).
  destruct (binary_round_aux prec emax false (Zpos mz) ez loc_Exact); auto.
Qed.

Lemma sub_below X u y :
  valid u = true -> valid y = true -> nonneg y -> leb y u = true ->
  below X u -> 0 <= X -> 2 * X < 2 ^ 2046 ->
  below (2 * X) (sub u y).
Proof.
  intros Vu Vy Ny L Bu X0 HXm.
  destruct u as [su|su| |su mu eu]; cbn [below] in Bu; try tauto.
  - (* u is a zero: so is y *)
    destruct y as [sy|sy| |sy my ey]; cbn [nonneg] in Ny;
      try (destruct Ny as (-> & _)); try subst sy; try discriminate L.
    destruct su, sy; exact I.
  - destruct Bu as (-> & Eu & Mu & Su).
    destruct y as [sy|sy| |sy my ey]; try discriminate L;
      [change (sub (S754_finite false mu eu) (S754_zero sy))
         with (S754_finite false mu eu); cbn [below]; repeat split; auto; lia
      | cbn [nonneg] in Ny; subst sy; discriminate L |].
    + cbn [nonneg] in Ny. destruct Ny as (-> & Ey & My).
      apply valid_finite in Vu as (Cu & _). apply valid_finite in Vy as (Cy & _).
      pose proof (leb_sc _ _ _ _ Cy Cu L) as S.
      unfold sub, SFsub. cbn [cond_Zopp].
      change IntDef.Z.min with Z.min in *.
      destruct (shl_align mu eu (Z.min eu ey)) as [mu' eu'] eqn:Au.
      destruct (shl_align my ey (Z.min eu ey)) as [my' ey'] eqn:Ay.
      apply shl_align_spec in Au as (Eu' & Mu' & _).
      apply shl_align_spec in Ay as (Ey' & My' & _).
      cbn [fst].
      assert (Qu : sc (Zpos mu') eu' = sc (Zpos mu) eu).
      { rewrite Mu', sc_shift by lia. now replace (eu' + (eu - eu')) with eu by lia. }
      destruct (Zpos mu' - Zpos my') as [|d|d] eqn:Df.
      * exact I.
      * cbn [binary_normalize].
        apply (below_le (2 * sc (Zpos d) (Z.min eu ey))).
        { assert (sc (Zpos d) (Z.min eu ey) <= sc (Zpos mu') eu').
          { replace (Z.min eu ey) with eu' by lia. apply sc_mono; lia. }
          lia. }
        apply binary_round_upper; try lia.
        assert (sc (Zpos d) (Z.min eu ey) <= sc (Zpos mu') eu').
        { replace (Z.min eu ey) with eu' by lia. apply sc_mono; lia. }
        lia.
      * exfalso.
        assert (sc (Zpos my') ey' <= sc (Zpos mu') eu').
        { rewrite Qu, My', sc_shift by lia.
          now replace (ey' + (ey - ey')) with ey by lia. }
        assert (X1 : eu' = ey') by lia.
        assert (P : 0 < 2 ^ (ey' + 1074)) by (apply pow2_pos; lia).
        rewrite X1 in H. unfold sc in H. nia.
Qed.

Lemma sc_one : sc (2 ^ 52) (-52) = D.
Proof. reflexivity. Qed.

Lemma scb_double m e : -1074 <= e -> scb 2148 m e = sc m e * D.
Proof.
  intros He. unfold scb, sc, D.
  replace (e + 2148) with ((e + 1074) + 1074) by lia.
  rewrite (pow2_split (e + 1074) 1074) by lia. ring.
Qed.

Lemma mul_below X d sl :
  below X d -> valid sl = true -> ltb zero sl = true -> leb sl one = true ->
  1 <= X -> 2 * X < 2 ^ 2046 ->
  below (2 * X) (mul d sl).
Proof.
  intros Bd Vs Ls L1 X1 HXm.
  destruct sl as [ss|ss| |ss ms es]; try discriminate Ls;
    destruct ss; try discriminate Ls; try discriminate L1.
  apply valid_finite in Vs as (Cs & Es & Ms).
  assert (S1 : sc (Zpos ms) es <= D).
  { rewrite <- sc_one. apply (leb_sc ms es 4503599627370496 (-52) Cs);
      [reflexivity | exact L1]. }
  destruct d as [sd|sd| |sd md ed]; cbn [below] in Bd; try tauto.
  destruct Bd as (-> & Ed & Md & Sd).
  pose proof (binary_round_aux_shape false (Zpos (md * ms)) (ed + es) loc_Exact
                ltac:(lia)) as Sh.
  apply shaped_below; [exact Sh|].
  change (mul (S754_finite false md ed) (S754_finite false ms es))
    with (binary_round_aux prec emax false (Zpos (md * ms)) (ed + es) loc_Exact).
  assert (Dp : 0 < D) by apply D_pos.
  assert (Q : scb 2148 (Zpos (md * ms)) (ed + es)
              = sc (Zpos md) ed * sc (Zpos ms) es).
  { unfold scb, sc. rewrite Pos2Z.inj_mul.
    replace (ed + es + 2148) with ((ed + 1074) + (es + 1074)) by lia.
    rewrite (pow2_split (ed + 1074) (es + 1074)) by lia. ring. }
  assert (P1 : 0 < sc (Zpos md) ed) by (apply sc_pos; lia).
  assert (P2 : 0 < sc (Zpos ms) es) by (apply sc_pos; lia).
  assert (E1 : 2 ^ (2148 - 1074) = D) by reflexivity.
  assert (E2 : 2 ^ (972 + 2148) = 2 ^ 2046 * D).
  { replace (972 + 2148) with (2046 + 1074) by lia.
    now rewrite (pow2_split 2046 1074) by lia. }
  pose proof (binary_round_aux_upper 2148 (X * D) false (Zpos (md * ms)) (ed + es)
                loc_Exact ltac:(lia) ltac:(lia) ltac:(lia)) as U.
  rewrite E1, E2, Q in U.
  assert (U' : match binary_round_aux prec emax false (Zpos (md * ms)) (ed + es)
                       loc_Exact with
               | S754_zero _ => True
               | S754_finite _ m e => scb 2148 (Zpos m) e <= 2 * (X * D)
               | _ => False
               end).
  { apply U.
    - clear U E1 E2 Q Sh. revert Sd S1 P1 P2 Dp X1.
      generalize (sc (Zpos md) ed) (sc (Zpos ms) es) D. intros a b c. nia.
    - clear - X1 Dp. revert X1 Dp. generalize D. intros c. nia.
    - clear - HXm Dp. revert HXm Dp. generalize D (2 ^ 2046). intros c p. nia. }
  clear U.
  destruct (binary_round_aux prec emax false (Zpos (md * ms)) (ed + es) loc_Exact)
    as [s|s| |s m e]; auto.
  cbn [shaped] in Sh. destruct Sh as (_ & Ee & _).
  rewrite (scb_double _ _ Ee) in U'.
  clear - U' Dp. revert U' Dp. generalize (sc (Zpos m) e) D. intros a c. nia.
Qed.

Lemma add_below X Y y t :
  below X y -> below Y t -> 0 <= X -> 0 <= Y -> 2 * (X + Y) < 2 ^ 2046 ->
  below (2 * (X + Y)) (add y t).
Proof.
  intros By Bt X0 Y0 HXm.
  destruct y as [sy|sy| |sy my ey]; cbn [below] in By; try tauto;
    destruct t as [st|st| |st mt et]; cbn [below] in Bt; try tauto.
  - destruct sy, st; exact I.
  - destruct Bt as (-> & Et & Mt & St).
    change (add (S754_zero sy) (S754_finite false mt et))
      with (S754_finite false mt et). cbn [below]. repeat split; auto; lia.
  - destruct By as (-> & Ey & My & Sy).
    change (add (S754_finite false my ey) (S754_zero st))
      with (S754_finite false my ey). cbn [below]. repeat split; auto; lia.
  - destruct By as (-> & Ey & My & Sy). destruct Bt as (-> & Et & Mt & St).
    unfold add, SFadd. cbn [cond_Zopp].
    change IntDef.Z.min with Z.min in *.
    destruct (shl_align my ey (Z.min ey et)) as [my' ey'] eqn:Ay.
    destruct (shl_align mt et (Z.min ey et)) as [mt' et'] eqn:At.
    apply shl_align_spec in Ay as (Ey' & My' & _).
    apply shl_align_spec in At as (Et' & Mt' & _).
    cbn [fst]. change (Zpos my' + Zpos mt') with (Zpos (my' + mt')).
    cbn [binary_normalize].
    assert (Qy : sc (Zpos my') ey' = sc (Zpos my) ey).
    { rewrite My', sc_shift by lia. now replace (ey' + (ey - ey')) with ey by lia. }
    assert (Qt : sc (Zpos mt') et' = sc (Zpos mt) et).
    { rewrite Mt', sc_shift by lia. now replace (et' + (et - et')) with et by lia. }
    assert (S : sc (Zpos (my' + mt')) (Z.min ey et) <= X + Y).
    { replace (Z.min ey et) with ey' by lia.
      assert (ey' = et') as Ee by lia.
      rewrite Pos2Z.inj_add. unfold sc in *. rewrite <- Ee in Qt.
      rewrite Z.mul_add_distr_r. lia. }
    apply (below_le (2 * sc (Zpos (my' + mt')) (Z.min ey et))); [lia|].
    apply binary_round_upper; lia.
Qed.

Lemma below_castable X x :
  below X x -> X < 2 ^ 63 * D -> to_int64 (rint x) <> None.
Proof.
  intros B HX. destruct x as [s|s| |s m e]; cbn [below] in B; try tauto.
  - discriminate.
  - destruct B as (-> & Ee & Mm & S).
    assert (Dp : 0 < D) by apply D_pos.
    destruct e as [|k|k].
    + cbn [rint to_int64].
      assert (R : (int64_min <=? Zpos m * 2 ^ 0) && (Zpos m * 2 ^ 0 <=? int64_max) = true).
      { unfold sc in S. change (2 ^ (0 + 1074)) with D in S. change (2 ^ 0) with 1.
        apply andb_true_iff. split; apply Z.leb_le; unfold int64_min, int64_max.
        - pose proof (pow2_pos 63). lia.
        - nia. }
      rewrite R. discriminate.
    + cbn [rint to_int64].
      assert (R : (int64_min <=? Zpos m * 2 ^ Zpos k)
                  && (Zpos m * 2 ^ Zpos k <=? int64_max) = true).
      { unfold sc in S. rewrite (pow2_split (Zpos k) 1074) in S by lia.
        change (2 ^ 1074) with D in S.
        pose proof (pow2_pos (Zpos k) ltac:(lia)).
        apply andb_true_iff. split; apply Z.leb_le; unfold int64_min, int64_max.
        - pose proof (pow2_pos 63). nia.
        - nia. }
      rewrite R. discriminate.
    + cbn [rint].
      pose proof (rint_mag_nonneg m (Zneg k)) as N.
      pose proof (rint_mag_small m k Mm) as Sm.
      destruct (rint_mag m (Zneg k)) as [|n|n]; try lia.
      * discriminate.
      * change (binary_normalize prec emax (Zpos n) 0 false) with (of_Z (Zpos n)).
        rewrite to_int64_of_Z by exact Sm. discriminate.
Qed.

End B64Upper.


Module DefinedFacts.
Import B64Upper.

(** The bound on the forecast: 2^59, in units of 2^-1074. *)
Definition X59 : Z := 2 ^ 59 * D.

Lemma below_of_leb x :
  valid x = true -> nonneg x -> leb x (of_Z (2 ^ 59)) = true -> below X59 x.
Proof.
  intros V N L. destruct x as [s|s| |s m e]; cbn [nonneg] in N.
  - exact I.
  - subst s. discriminate L.
  - discriminate L.
  - destruct N as (-> & He & Hm). cbn [below].
    apply valid_finite in V as (C & _). repeat split; auto.
    change (of_Z (2 ^ 59)) with (S754_finite false 4503599627370496 7) in L.
    apply (leb_sc m e 4503599627370496 7 C) in L; [|reflexivity].
    unfold X59. replace (2 ^ 59 * D) with (sc 4503599627370496 7); [exact L|].
    unfold sc, D. change (7 + 1074) with (7 + 1074).
    rewrite (pow2_split 7 1074) by lia. change 4503599627370496 with (2 ^ 52).
    rewrite Z.mul_assoc. f_equal.
Qed.

Lemma below_of_leb_below X y u :
  valid y = true -> valid u = true -> nonneg y -> leb y u = true ->
  below X u -> below X y.
Proof.
  intros Vy Vu Ny L Bu.
  destruct y as [sy|sy| |sy my ey]; cbn [nonneg] in Ny.
  - exact I.
  - subst sy. destruct u as [su|su| |su mu eu]; cbn [below] in Bu; try tauto;
      discriminate L.
  - discriminate L.
  - destruct Ny as (-> & Ey & My).
    destruct u as [su|su| |su mu eu]; cbn [below] in Bu; try tauto;
      [discriminate L|].
    destruct Bu as (-> & Eu & Mu & Su). cbn [below].
    apply valid_finite in Vy as (Cy & _). apply valid_finite in Vu as (Cu & _).
    pose proof (leb_sc _ _ _ _ Cy Cu L). repeat split; auto. lia.
Qed.

(** An upper bound that a clipped estimate stays under is not negative. *)
Lemma upper_nonneg y u :
  valid u = true -> nonneg y -> y <> S754_nan -> leb y u = true -> nonneg u.
Proof.
  intros Vu Ny Nn L.
  destruct u as [su|su| |su mu eu]; cbn [nonneg]; [exact I| |exact I|].
  - destruct su; [|reflexivity]. exfalso.
    destruct y as [sy|sy| |sy my ey]; cbn [nonneg] in Ny.
    + discriminate L.
    + subst sy. discriminate L.
    + apply Nn. reflexivity.
    + destruct Ny as (-> & _). discriminate L.
  - apply valid_finite in Vu as (_ & Eu & Mu).
    destruct su; [|repeat split; assumption]. exfalso.
    destruct y as [sy|sy| |sy my ey]; cbn [nonneg] in Ny.
    + discriminate L.
    + subst sy. discriminate L.
    + apply Nn. reflexivity.
    + destruct Ny as (-> & _). discriminate L.
Qed.

Lemma row_castable sl y lo up d :
  valid y = true -> valid up = true ->
  valid sl = true -> ltb zero sl = true -> leb sl one = true ->
  leb (clip_lower0 y) up = true -> leb up (of_Z (2 ^ 59)) = true ->
  castable sl {| ds := d; yhat := clip_lower0 y;
                 yhat_lower := lo; yhat_upper := up |}.
Proof.
  intros Vy Vu Vs Ls L1 L Lb.
  destruct (clip_lower0_nonneg y Vy) as [Vc Nc].
  assert (Nn : clip_lower0 y <> S754_nan).
  { intros E. rewrite E in L. discriminate L. }
  pose proof (upper_nonneg _ _ Vu Nc Nn L) as Nu.
  pose proof (below_of_leb _ Vu Nu Lb) as Bu.
  pose proof (below_of_leb_below _ _ _ Vc Vu Nc L Bu) as By.
  assert (Dp : 0 < D) by apply D_pos.
  assert (P59 : 2 ^ 59 * D = X59) by reflexivity.
  assert (X0 : 1 <= X59) by (unfold X59; lia).
  assert (XM : 16 * X59 < 2 ^ 2046).
  { unfold X59, D. change 16 with (2 ^ 4).
    rewrite <- !pow2_split by lia. apply Z.pow_lt_mono_r; lia. }
  assert (X63 : 16 * X59 = 2 ^ 63 * D).
  { unfold X59. change 16 with (2 ^ 4). rewrite Z.mul_assoc.
    now rewrite <- (pow2_split 4 59) by lia. }
  clear P59.
  split; unfold recommended_float, expected_float; cbn [yhat yhat_upper].
  - pose proof (sub_below X59 _ _ Vu Vc Nc L Bu ltac:(lia) ltac:(lia)) as B1.
    pose proof (mul_below (2 * X59) _ sl B1 Vs Ls L1 ltac:(lia) ltac:(lia)) as B2.
    pose proof (add_below X59 (2 * (2 * X59)) _ _ By B2 ltac:(lia) ltac:(lia)
                  ltac:(lia)) as B3.
    apply (below_castable _ _ B3). lia.
  - apply (below_castable _ _ By). lia.
Qed.

End DefinedFacts.

Lemma all_rows_length sl forecast out :
  all_rows sl forecast = Some out -> List.length out = List.length forecast.
Proof.
  revert out. induction forecast as [|p rest IH]; intros out H; cbn [all_rows] in H.
  - now inversion H.
  - destruct (inventory_row sl p); [|discriminate].
    destruct (all_rows sl rest) as [os|]; [|discriminate].
    inversion H; subst. cbn [List.length]. now rewrite (IH os).
Qed.

(** X12: the inventory computation returns.  When the estimates and
    upper bounds of the forecast are [float64] numbers, every clipped
    estimate is at most its upper bound, no upper bound exceeds 2^59, and
    the service level lies in (0, 1], every cast to [int64] is defined:
    [calculate_inventory_needs] returns a frame, with one row per
    forecast point and 0 <= expected_demand <= recommended_production in
    every row. *)
Theorem inventory_needs_defined
        (model_forecast : list ForecastRow) (service_level : float64) :
  Forall (fun r => valid (yhat r) = true /\ valid (yhat_upper r) = true)
         model_forecast ->
  Forall (fun p => leb (yhat p) (yhat_upper p) = true
                   /\ leb (yhat_upper p) (of_Z (2 ^ 59)) = true)
         (predict model_forecast) ->
  valid service_level = true ->
  ltb zero service_level = true ->
  leb service_level one = true ->
  exists inventory,
    calculate_inventory_needs model_forecast service_level = Some inventory
    /\ List.length inventory = List.length model_forecast
    /\ Forall (fun o => 0 <= expected_demand o <= recommended_production o)
              inventory.
Proof.
  intros V L Vs Ls L1.
  assert (C : Forall (castable service_level) (predict model_forecast)).
  { clear - V L Vs Ls L1.
    induction model_forecast as [|r rest IH]; [constructor|].
    change (predict (r :: rest))
      with ({| ds := ds r; yhat := clip_lower0 (yhat r);
               yhat_lower := yhat_lower r; yhat_upper := yhat_upper r |}
              :: predict rest) in L |- *.
    inversion V as [|? ? [Vy Vu] Vr]; subst.
    inversion L as [|? ? [Lp Lb] Lr]; subst. cbn [yhat yhat_upper] in Lp, Lb.
    constructor; [|now apply IH].
    now apply DefinedFacts.row_castable. }
  apply all_rows_some in C. unfold calculate_inventory_needs.
  destruct (all_rows service_level (predict model_forecast)) as [inventory|] eqn:E;
    [|now elim C].
  exists inventory. split; [reflexivity|]. split.
  - rewrite (all_rows_length _ _ _ E). unfold predict. apply length_map.
  - apply (InventoryFacts.all_rows_covers service_level model_forecast); auto.
    eapply Forall_impl; [|exact L]. simpl. tauto.
Qed.

Lemma inventory_needs_defined_witness :
  exists inventory,
    calculate_inventory_needs sample_forecast lit_0_95 = Some inventory
    /\ List.length inventory = 2%nat.
Proof.
  destruct (inventory_needs_defined sample_forecast lit_0_95)
    as (inventory & E & Len & _).
  - repeat constructor.
  - repeat constructor.
  - reflexivity.
  - reflexivity.
  - reflexivity.
  - exists inventory. split; [exact E | exact Len].
Defined.

(** ** The rows of the materials frame *)

Module FrameFacts.
Import Dict DictFacts MaterialsFacts.

Section Rows.
Variable A : arith.
Variable recipes : list (string * list (string * Z)).

Lemma recipe_on_some k tp recipe o :
  recipe_on A k tp recipe o <> None <-> o <> None \/ In k (keys recipe).
Proof.
  revert o. induction recipe as [|[material qty] rest IH]; intros o; simpl.
  - tauto.
  - rewrite IH. destruct (String.eqb material k) eqn:E.
    + apply String.eqb_eq in E. subst. split; [auto|]. intros _. left. discriminate.
    + apply String.eqb_neq in E. intuition congruence.
Qed.

(** The products that reach the material [k]: those of the totals that
    have a recipe with [k] in it. *)
Definition uses (k : string) (totals : list (string * Z)) : Prop :=
  exists product tp recipe,
    In (product, tp) totals /\ get product recipes = Some recipe
    /\ In k (keys recipe).

Lemma totals_on_some k totals o :
  totals_on A recipes k totals o <> None <-> o <> None \/ uses k totals.
Proof.
  revert o. induction totals as [|[product tp] rest IH]; intros o; simpl.
  - split; [auto|]. intros [H|(p & t & r & [] & _)]. exact H.
  - rewrite IH. unfold product_on. simpl.
    destruct (get product recipes) as [recipe|] eqn:E.
    + rewrite recipe_on_some. split.
      * intros [[H|H]|(p & t & r & I & G & K)]; [now left| |].
        -- right. exists product, tp, recipe. simpl. auto.
        -- right. exists p, t, r. simpl. auto.
      * intros [H|(p & t & r & [I|I] & G & K)]; [now left; left| |].
        -- inversion I; subst. rewrite E in G. inversion G; subst. left. now right.
        -- right. exists p, t, r. auto.
    + split.
      * intros [H|(p & t & r & I & G & K)]; [now left|].
        right. exists p, t, r. simpl. auto.
      * intros [H|(p & t & r & [I|I] & G & K)]; [now left| |].
        -- inversion I; subst. congruence.
        -- right. exists p, t, r. auto.
Qed.

Lemma in_keys_accumulate k totals :
  In k (keys (accumulate A recipes totals [])) <-> uses k totals.
Proof.
  split.
  - intros H. destruct (get k (accumulate A recipes totals [])) eqn:G.
    + rewrite get_accumulate in G.
      assert (N : totals_on A recipes k totals (get k []) <> None) by congruence.
      apply totals_on_some in N as [N|N]; [now elim N | exact N].
    + apply get_none_notin in G. now elim G.
  - intros U. destruct (get k (accumulate A recipes totals [])) eqn:G.
    + destruct (in_dec string_dec k (keys (accumulate A recipes totals [])))
        as [I|I]; [exact I|].
      apply get_none_notin in I. congruence.
    + exfalso. rewrite get_accumulate in G. revert G.
      apply totals_on_some. now right.
Qed.

Lemma insert_desc_perm row rows : Permutation (insert_desc A row rows) (row :: rows).
Proof.
  induction rows as [|r rows IH]; cbn [insert_desc]; [reflexivity|].
  destruct (a_leb A (snd r) (snd row) && negb (a_leb A (snd row) (snd r)));
    [reflexivity|].
  rewrite IH. apply perm_swap.
Qed.

(** Sorting moves rows; it neither drops nor repeats one. *)
Lemma sort_values_desc_perm rows : Permutation (sort_values_desc A rows) rows.
Proof.
  induction rows as [|r rows IH]; cbn [sort_values_desc]; [reflexivity|].
  rewrite insert_desc_perm. now constructor.
Qed.

(** Each row holds at least as much as the next one. *)
Fixpoint is_descending (rows : list (string * num A)) : bool :=
  match rows with
  | r1 :: (r2 :: _) as rest => a_leb A (snd r2) (snd r1) && is_descending rest
  | _ => true
  end.

Section Comparable.
(** The quantities that [<=] compares (for [float64]: all but NaN). *)
Variable comparable : num A -> Prop.
Hypothesis leb_total :
  forall x y, comparable x -> comparable y ->
              a_leb A x y = true \/ a_leb A y x = true.

Definition head_below (r : string * num A) (rows : list (string * num A)) : Prop :=
  match rows with
  | [] => True
  | r2 :: _ => a_leb A (snd r2) (snd r) = true
  end.

Lemma is_descending_cons r rows :
  is_descending (r :: rows) = true <-> head_below r rows /\ is_descending rows = true.
Proof.
  destruct rows as [|r2 rest]; cbn [is_descending head_below].
  - tauto.
  - rewrite andb_true_iff. tauto.
Qed.

Lemma insert_desc_descending row rows :
  comparable (snd row) -> Forall (fun r => comparable (snd r)) rows ->
  is_descending rows = true -> is_descending (insert_desc A row rows) = true.
Proof.
  intros Cr. induction rows as [|r rows IH]; intros F S; [reflexivity|].
  inversion F as [|? ? Ch Ct]; subst. cbn [insert_desc].
  destruct (a_leb A (snd r) (snd row) && negb (a_leb A (snd row) (snd r))) eqn:E.
  - apply is_descending_cons. split; [|exact S]. simpl.
    now apply andb_true_iff in E as [E _].
  - apply is_descending_cons in S as [Hb S].
    apply is_descending_cons. split; [|now apply IH].
    assert (L : a_leb A (snd row) (snd r) = true).
    { destruct (leb_total _ _ Ch Cr) as [L|L]; [|exact L].
      rewrite L in E. simpl in E. now apply negb_false_iff in E. }
    destruct rows as [|r2 rest]; [exact L|]. cbn [insert_desc].
    destruct (a_leb A (snd r2) (snd row) && negb (a_leb A (snd row) (snd r2)));
      [exact L | exact Hb].
Qed.

Lemma sort_values_desc_descending rows :
  Forall (fun r => comparable (snd r)) rows ->
  is_descending (sort_values_desc A rows) = true.
Proof.
  induction rows as [|r rows IH]; intros F; [reflexivity|].
  inversion F as [|? ? Ch Ct]; subst. cbn [sort_values_desc].
  apply insert_desc_descending; [exact Ch | | now apply IH].
  eapply Permutation_Forall; [|exact Ct].
  apply Permutation_sym, sort_values_desc_perm.
Qed.

End Comparable.

(** The frame, when there is one, is the sorted list of rounded totals. *)
Lemma frame_some totals rows :
  materials_frame A recipes totals = Some rows ->
  rows = sort_values_desc A
           (map (fun '(mat, qty) => (mat, a_round2 A qty))
                (accumulate A recipes totals []))
  /\ accumulate A recipes totals [] <> [].
Proof.
  unfold materials_frame.
  destruct (accumulate A recipes totals []) as [|r d]; [discriminate|].
  intros H. split; [|discriminate].
  now apply (f_equal (fun o => match o with Some x => x | None => [] end)) in H.
Qed.

End Rows.

(** [<=] on [float64] compares any two numbers that are not NaN. *)
Lemma compare_antisym x y c :
  SFcompare x y = Some c -> SFcompare y x = Some (CompOpp c).
Proof.
  destruct x as [sx|sx| |sx mx ex], y as [sy|sy| |sy my ey]; simpl;
    try discriminate;
    try (destruct sx; intros H; inversion H; reflexivity);
    try (destruct sy; intros H; inversion H; reflexivity);
    try (destruct sx, sy; intros H; inversion H; reflexivity).
  intros H. inversion H; subst; clear H. f_equal.
  rewrite (Z.compare_antisym ex ey).
  rewrite !Pos.compare_cont_spec. simpl.
  rewrite (Pos.compare_antisym mx my).
  destruct sx, sy; try reflexivity;
    destruct (ex ?= ey); simpl; try reflexivity;
    destruct (mx ?= my)%positive; reflexivity.
Qed.

Lemma leb_total x y :
  x <> S754_nan -> y <> S754_nan -> leb x y = true \/ leb y x = true.
Proof.
  intros Nx Ny. unfold leb, SFleb.
  destruct (SFcompare x y) as [c|] eqn:E.
  - rewrite (compare_antisym _ _ _ E). destruct c; simpl; auto.
  - destruct x, y; simpl in E; congruence.
Qed.

Lemma get_in {V : Type} (k : string) (v : V) (d : list (string * V)) :
  Dict.get k d = Some v -> In (k, v) d.
Proof.
  induction d as [|[k' v'] d IH]; simpl; [discriminate|].
  destruct (String.eqb k' k) eqn:E.
  - apply String.eqb_eq in E. intros H. inversion H; subst. now left.
  - intros H. right. now apply IH.
Qed.

End FrameFacts.

(** The six materials of the recipe table. *)
Definition MATERIALS : list string :=
  ["flour"; "butter"; "eggs"; "meat"; "vegetables"; "sugar"].

(** Every recipe uses flour, butter and eggs, and nothing outside the six
    materials. *)
Lemma recipes_shape product recipe :
  Dict.get product RECIPES = Some recipe ->
  In "flour" (Dict.keys recipe) /\ In "butter" (Dict.keys recipe)
  /\ In "eggs" (Dict.keys recipe) /\ incl (Dict.keys recipe) MATERIALS.
Proof.
  intros H. apply FrameFacts.get_in in H. unfold RECIPES in H. simpl in H.
  repeat (destruct H as [H|H];
          [inversion H; subst; clear H; simpl;
           repeat split; try tauto;
           intros m Hm; simpl in Hm |- *; tauto|]).
  destruct H.
Qed.

(** X13: the rows of the materials frame.  [get_raw_materials] fails on
    the sort exactly when no product has a recipe; otherwise the frame
    lists each material once, only flour, butter, eggs, meat, vegetables
    and sugar (so at most six rows), always flour, butter and eggs, and a
    material is listed exactly when a product with a recipe that uses it
    is among the fitted models, whatever the quantities. *)
Theorem materials_frame_rows (A : arith) (totals : list (string * Z)) :
  (materials_frame A RECIPES totals = None <->
   forall product tp, In (product, tp) totals -> Dict.get product RECIPES = None)
  /\ forall rows,
      materials_frame A RECIPES totals = Some rows ->
      NoDup (Dict.keys rows)
      /\ incl (Dict.keys rows) MATERIALS
      /\ (List.length rows <= 6)%nat
      /\ In "flour" (Dict.keys rows) /\ In "butter" (Dict.keys rows)
      /\ In "eggs" (Dict.keys rows)
      /\ forall material,
          In material (Dict.keys rows) <->
          exists product tp recipe,
            In (product, tp) totals /\ Dict.get product RECIPES = Some recipe
            /\ In material (Dict.keys recipe).
Proof.
  split.
  - rewrite MaterialsFacts.frame_none. split.
    + intros H product tp I.
      destruct (Dict.get product RECIPES) as [recipe|] eqn:G; [|reflexivity].
      exfalso. destruct (recipes_shape _ _ G) as (Fl & _).
      specialize (H "flour"). apply DictFacts.get_none_notin in H. apply H.
      apply FrameFacts.in_keys_accumulate. now exists product, tp, recipe.
    + intros H k. apply DictFacts.get_none_notin. intros I.
      apply FrameFacts.in_keys_accumulate in I as (p & t & r & I & G & _).
      rewrite (H p t I) in G. discriminate.
  - intros rows H.
    assert (K : forall material,
               In material (Dict.keys rows) <->
               FrameFacts.uses RECIPES material totals).
    { intros material. rewrite <- (FrameFacts.in_keys_accumulate A).
      destruct (FrameFacts.frame_some _ _ _ _ H) as [-> _].
      rewrite MaterialsFacts.in_keys_sort, DictFacts.keys_map. reflexivity. }
    assert (ND : NoDup (Dict.keys rows)).
    { pose proof (MaterialsFacts.nodup_accumulate A RECIPES totals []
                    (NoDup_nil _)) as N.
      destruct (FrameFacts.frame_some _ _ _ _ H) as [-> _].
      pose proof (Permutation_map fst
                    (FrameFacts.sort_values_desc_perm A
                       (map (fun '(mat, qty) => (mat, a_round2 A qty))
                            (accumulate A RECIPES totals [])))) as P.
      fold (Dict.keys (map (fun '(mat, qty) => (mat, a_round2 A qty))
                           (accumulate A RECIPES totals []))) in P.
      rewrite DictFacts.keys_map in P.
      exact (Permutation_NoDup (Permutation_sym P) N). }
    assert (I : incl (Dict.keys rows) MATERIALS).
    { intros m Hm. apply K in Hm as (p & t & r & _ & G & Hr).
      now apply (recipes_shape _ _ G). }
    assert (U : exists product tp recipe,
               In (product, tp) totals /\ Dict.get product RECIPES = Some recipe).
    { destruct rows as [|[m q] rows].
      - destruct (FrameFacts.frame_some _ _ _ _ H) as [E N].
        pose proof (Permutation_length
                      (FrameFacts.sort_values_desc_perm A
                         (map (fun '(mat, qty) => (mat, a_round2 A qty))
                              (accumulate A RECIPES totals [])))) as L.
        rewrite <- E, length_map in L.
        destruct (accumulate A RECIPES totals []); [now elim N | discriminate L].
      - destruct (proj1 (K m) (or_introl eq_refl)) as (p & t & r & I1 & G & _).
        now exists p, t, r. }
    destruct U as (p & t & r & I1 & G).
    destruct (recipes_shape _ _ G) as (Fl & Bu & Eg & _).
    split; [exact ND|]. split; [exact I|]. split.
    { unfold Dict.keys in ND, I.
      rewrite <- (length_map fst rows).
      apply (NoDup_incl_length ND I). }
    split; [apply K; now exists p, t, r|].
    split; [apply K; now exists p, t, r|].
    split; [apply K; now exists p, t, r|].
    exact K.
Qed.

Lemma materials_frame_rows_witness :
  exists rows,
    materials_frame binary64 RECIPES [("Bagel", 40); ("Sandwich", 10)] = Some rows
    /\ NoDup (Dict.keys rows)
    /\ (List.length rows <= 6)%nat.
Proof.
  eexists. split; [vm_compute; reflexivity|].
  pose proof (proj2 (materials_frame_rows binary64 [("Bagel", 40); ("Sandwich", 10)])
                _ eq_refl) as H.
  split; [exact (proj1 H) | exact (proj1 (proj2 (proj2 H)))].
Defined.

(** X14: the frame is the dictionary of rounded totals, reordered, and
    its rows come in descending quantity whenever no quantity is NaN. *)
Theorem materials_frame_descending
        (recipes : list (string * list (string * Z)))
        (totals : list (string * Z)) (rows : list (string * float64)) :
  materials_frame binary64 recipes totals = Some rows ->
  Permutation rows
    (map (fun '(mat, qty) => (mat, round2 qty)) (accumulate binary64 recipes totals []))
  /\ (Forall (fun row => snd row <> S754_nan) rows ->
      FrameFacts.is_descending binary64 rows = true).
Proof.
  intros H. destruct (FrameFacts.frame_some _ _ _ _ H) as [-> _].
  pose proof (FrameFacts.sort_values_desc_perm binary64
                (map (fun '(mat, qty) => (mat, a_round2 binary64 qty))
                     (accumulate binary64 recipes totals []))) as P.
  split; [exact P|]. intros F.
  apply (FrameFacts.sort_values_desc_descending binary64
           (fun x : float64 => x <> S754_nan)).
  - intros x y. apply FrameFacts.leb_total.
  - eapply Permutation_Forall; [exact P | exact F].
Qed.

Lemma materials_frame_descending_witness :
  exists rows,
    materials_frame binary64 RECIPES [("Croissant", 250); ("Muffin", 120)] = Some rows
    /\ FrameFacts.is_descending binary64 rows = true.
Proof.
  destruct (materials_frame binary64 RECIPES [("Croissant", 250); ("Muffin", 120)])
    as [rows|] eqn:E; [|vm_compute in E; discriminate E].
  exists rows. split; [reflexivity|].
  apply (proj2 (materials_frame_descending RECIPES _ rows E)).
  vm_compute in E. injection E as <-.
  repeat (apply Forall_cons; [discriminate|]). apply Forall_nil.
Defined.

From Stdlib Require Import DecimalString.

(** ** The forecaster object *)

(** The methods of [FreshCastForecaster] on an instance: the guards of
    [predict] and the loops over [self.models], around the arithmetic
    above.  [None] stands for a call that does not return a value: an
    exception, or a cast to [int64] that is not defined. *)
Module ForecasterState.

(** What [predict] asks of a fitted Prophet model: the rows
    [model.predict(model.make_future_dataframe(periods=days_ahead))
    .tail(days_ahead)], or [None] when the library raises. *)
Definition FittedModel := Z -> option (list ForecastRow).

Record Forecaster := {
  models : list (string * FittedModel);
  trained : bool
}.

(** [__init__] *)
Definition init : Forecaster := {| models := []; trained := false |}.


Definition self_predict (self : Forecaster) (product_name : string) (days_ahead : Z)
  : option (list ForecastRow) :=
  if negb (trained self) then None
  else match Dict.get product_name (models self) with
       | None => None
       | Some model => option_map FreshCastForecaster.predict (model days_ahead)
       end.

Definition self_calculate_inventory_needs (self : Forecaster) (product_name : string)
           (days_ahead : Z) (service_level : float64)
  : option (list InventoryRow) :=
  match self_predict self product_name days_ahead with
  | Some forecast => all_rows service_level forecast
  | None => None
  end.

Record SummaryRow := {
  summary_product : string;
  summary_total_demand : Z;
  summary_total_production : Z;
  summary_daily_average : float64
}.

Section Summary.
(** [Series.mean] of an [int64] column, left to pandas. *)
Variable series_mean : list Z -> float64.

Fixpoint summaries (self : Forecaster) (products : list string)
  : option (list SummaryRow) :=
  match products with
  | [] => Some []
  | product :: rest =>
      match self_calculate_inventory_needs self product 7 lit_0_95,
            summaries self rest with
      | Some inventory, Some others =>
          Some ({| summary_product := product;
                   summary_total_demand := total_demand inventory;
                   summary_total_production := total_production inventory;
                   summary_daily_average :=
                     series_mean (map expected_demand inventory) |}
                  :: others)
      | _, _ => None
      end
  end.

(** [if product_name:] is false on [None] and on the empty string. *)
Definition get_weekly_summary (self : Forecaster) (product_name : option string)
  : option (list SummaryRow) :=
  summaries self
    (match product_name with
     | Some (String c s) => [String c s]
     | _ => Dict.keys (models self)
     end).
End Summary.

Fixpoint self_production_totals (self : Forecaster) (days_ahead : Z)
         (products : list string) : option (list (string * Z)) :=
  match products with
  | [] => Some []
  | product :: rest =>
      match self_calculate_inventory_needs self product days_ahead lit_0_95,
            self_production_totals self days_ahead rest with
      | Some inventory, Some ts =>
          Some ((product, total_production inventory) :: ts)
      | _, _ => None
      end
  end.

Definition self_get_raw_materials (self : Forecaster) (days_ahead : Z)
  : option (list (string * float64)) :=
  match self_production_totals self days_ahead (Dict.keys (models self)) with
  | Some totals => materials_frame binary64 RECIPES totals
  | None => None
  end.

End ForecasterState.

(** ** [llm/assistant.py] *)

Module FreshCastLLM.

Record Message := { role : string; content : string }.

(** What comes back from [client.chat.completions.create] followed by
    [.choices[0].message.content]: the content of the reply, which may be
    null, or the text of the exception that was raised. *)
Inductive Completion :=
| Reply (reply_content : option string)
| Raised (detail : string).

(** The client, with the model name, the temperature and the token limit
    of the call fixed. *)
Definition Client := list Message -> Completion.

Definition LF : string := String "010"%char "".

Definition system_prompt : string :=
  "You are FreshCast AI Assistant, a supply chain and business expert for small bakeries." ++ LF
  ++ LF
  ++ "Your role:" ++ LF
  ++ "- Provide practical advice for bakery operations" ++ LF
  ++ "- Suggest suppliers and cost optimization strategies" ++ LF
  ++ "- Answer questions about ingredient storage, quality, and substitutions" ++ LF
  ++ "- Give actionable recommendations based on industry best practices" ++ LF
  ++ LF
  ++ "Keep responses:" ++ LF
  ++ "- Concise (2-3 paragraphs max)" ++ LF
  ++ "- Actionable with specific recommendations" ++ LF
  ++ "- Cost-conscious (remember, this is a small business)" ++ LF
  ++ "- Professional but friendly" ++ LF
  ++ LF
  ++ "If asked about forecasts or inventory numbers, remind the user that the ML model handles those queries.".

Definition not_configured : string :=
  "❌ LLM not configured. Please set OPENAI_API_KEY in .env file.".

(** [bool(s)] for a string or [None] *)
Definition truthy (s : option string) : bool :=
  match s with
  | Some (String _ _) => true
  | _ => false
  end.

Definition messages (user_question : string) (context : option string)
  : list Message :=
  [{| role := "system"; content := system_prompt |}]
    ++ (match context with
        | Some (String c s) =>
            [{| role := "system";
                content := "Current context: " ++ String c s |}]
        | _ => []
        end)
    ++ [{| role := "user"; content := user_question |}].

(** [query]: [None] is the Python [None] of a reply without content. *)
Definition query (client : option Client) (user_question : string)
           (context : option string) : option string :=
  match client with
  | None => Some not_configured
  | Some create =>
      match create (messages user_question context) with
      | Reply reply_content => reply_content
      | Raised detail => Some ("❌ Error: " ++ detail)
      end
  end.

End FreshCastLLM.

(** ** [api/main.py] *)

(** The endpoints.  A text outside the alphabet of the router (the
    pictographs of the answers) is written as the bytes of its UTF-8
    encoding; the handlers only concatenate answers and test them for
    emptiness.  Every exception becomes a response with status 500:
    [None] stands for it, and for figures that are not defined. *)
Module Api.
Import FreshCastLLM.

(** [query_type.value] *)
Definition query_type_value (qt : QueryType) : string :=
  match qt with
  | FORECAST_DEMAND => "forecast_demand"
  | INVENTORY_NEEDS => "inventory_needs"
  | RAW_MATERIALS => "raw_materials"
  | BUSINESS_ADVICE => "business_advice"
  | SUPPLIER_INFO => "supplier_info"
  | GENERAL_QUESTION => "general_question"
  end.

Record QueryResponse := {
  answer : string;
  response_query_type : string;
  response_confidence : Q;
  used_ml : bool;
  used_llm : bool
}.

(** [str(n)] for an integer *)
Definition str_int (n : Z) : string := NilZero.string_of_int (Z.to_int n).

(** [int(x)] for a float: truncation; raises on NaN and the infinities. *)
Definition int_of_float (x : float64) : option Z :=
  match x with
  | S754_zero _ => Some 0
  | S754_finite s m e =>
      let mag := match e with
                 | Zneg k => Zpos m / 2 ^ Zpos k
                 | _ => Zpos m * 2 ^ e
                 end in
      Some (if s then - mag else mag)
  | _ => None
  end.

(** [int(total_demand / time_period)], an [int64] divided by a Python
    integer: a [float64] division, by zero too.  For a divisor outside
    [int64] the result depends on the version of numpy, and is left
    undefined. *)
Definition daily_average (total_demand time_period : Z) : option Z :=
  if (int64_min <=? time_period) && (time_period <=? int64_max)
  then int_of_float (div (of_Z total_demand) (of_Z time_period))
  else None.

Definition fallback : string :=
  "I'm not sure how to answer that. Try asking about inventory needs, forecasts, or business advice!".

(** [f"{x}"] for a string or [None] *)
Definition format (s : option string) : string :=
  match s with Some t => t | None => "None" end.

Definition product_map : list (string * string) :=
  [ ("croissant", "Croissant"); ("baguette", "Baguette");
    ("sourdough", "Sourdough"); ("sandwich", "Sandwich");
    ("donut", "Donut"); ("muffin", "Muffin");
    ("cinnamon_roll", "Cinnamon_Roll"); ("cinnamon roll", "Cinnamon_Roll") ].

(** The name [get_forecast] looks up: the entry of the table for the
    lower-cased path parameter, the parameter itself when there is none. *)
Definition product_name (product : string) : string :=
  match Dict.get (Str.lower product) product_map with
  | Some name => name
  | None => product
  end.

Record ForecastResponse := {
  forecast_product : string;
  forecast_days_ahead : Z;
  total_expected_demand : Z;
  total_recommended_production : Z;
  daily_forecast : list InventoryRow
}.


Section Endpoints.
Variable max_str_digits : nat.
(** The module-level objects [forecaster] and [llm_assistant]. *)
Variable forecaster : ForecasterState.Forecaster.
Variable client : option Client.
(** [Series.mean], and [str(x)] for a float. *)
Variable series_mean : list Z -> float64.
Variable str_float : float64 -> string.

Definition materials_answer (time_period : Z) : option string :=
  match ForecasterState.self_get_raw_materials forecaster time_period with
  | Some materials =>
      Some (fold_left
              (fun answer row =>
                 answer ++ "• " ++ Str.title (fst row) ++ ": "
                        ++ str_float (snd row) ++ " kg" ++ LF)
              materials
              ("📦 Raw Materials Needed (Next " ++ str_int time_period
                 ++ " days):" ++ LF ++ LF))
  | None => None
  end.

Definition product_answer (product : string) (time_period : Z) : option string :=
  match ForecasterState.self_calculate_inventory_needs forecaster product time_period
          lit_0_95 with
  | Some inventory =>
      match daily_average (total_demand inventory) time_period with
      | Some average =>
          Some ("📊 Forecast for " ++ product ++ " (Next " ++ str_int time_period
                  ++ " days):" ++ LF ++ LF
                  ++ "• Expected Demand: " ++ str_int (total_demand inventory)
                  ++ " units" ++ LF
                  ++ "• Recommended Production: "
                  ++ str_int (total_production inventory) ++ " units" ++ LF
                  ++ "• Daily Average: " ++ str_int average ++ " units" ++ LF)
      | None => None
      end
  | None => None
  end.

Definition summary_header (time_period : Z) : string :=
  "📊 Production Summary (Next " ++ str_int time_period ++ " days):" ++ LF ++ LF.

Definition summary_answer (time_period : Z) : option string :=
  match ForecasterState.get_weekly_summary series_mean forecaster None with
  | Some summary =>
      Some (fold_left
              (fun answer row =>
                 answer ++ "• " ++ ForecasterState.summary_product row ++ ": "
                        ++ str_int (ForecasterState.summary_total_production row)
                        ++ " units" ++ LF)
              summary (summary_header time_period))
  | None => None
  end.

(** The part of [ask_question] under [if routing['use_ml']]. *)
Definition ml_answer (routing : RoutingDecision) : option string :=
  if String.eqb (query_type_value (query_type routing)) "raw_materials"
  then materials_answer (time_period routing)
  else match product routing with
       | Some (String c s) => product_answer (String c s) (time_period routing)
       | _ => summary_answer (time_period routing)
       end.

Definition ask_question (question : string) : option QueryResponse :=
  match route max_str_digits question with
  | Ok routing =>
      match (if use_ml routing then ml_answer routing else Some "") with
      | Some answer0 =>
          let answer1 :=
            if use_llm routing
            then let llm_response := query client question None in
                 if truthy (Some answer0)
                 then Some (answer0 ++ LF ++ LF ++ "💡 Additional Insight:" ++ LF
                                    ++ format llm_response)
                 else llm_response
            else Some answer0 in
          let answer2 := if truthy answer1 then format answer1 else fallback in
          Some {| answer := answer2;
                  response_query_type := query_type_value (query_type routing);
                  response_confidence := confidence routing;
                  used_ml := use_ml routing;
                  used_llm := use_llm routing |}
      | None => None
      end
  | _ => None
  end.

Definition get_forecast (product : string) (days_ahead : Z)
  : option ForecastResponse :=
  match ForecasterState.self_predict forecaster (product_name product) days_ahead,
        ForecasterState.self_calculate_inventory_needs forecaster
          (product_name product) days_ahead lit_0_95 with
  | Some _, Some inventory =>
      Some {| forecast_product := product_name product;
              forecast_days_ahead := days_ahead;
              total_expected_demand := total_demand inventory;
              total_recommended_production := total_production inventory;
              daily_forecast := inventory |}
  | _, _ => None
  end.

End Endpoints.

End Api.

(** ** Properties of the endpoints *)

Module ApiFacts.
Import FreshCastLLM Api.

Lemma truthy_app (a b : string) : truthy (Some a) = true -> truthy (Some (a ++ b)) = true.
Proof. now destruct a. Qed.

(** A loop that only appends keeps a non-empty answer non-empty. *)
Lemma truthy_fold {R : Type} (line : R -> string) (rows : list R) (answer : string) :
  truthy (Some answer) = true ->
  truthy (Some (fold_left (fun a row => a ++ line row) rows answer)) = true.
Proof.
  revert answer. induction rows as [|r rows IH]; intros answer H; simpl.
  - exact H.
  - apply IH. now apply truthy_app.
Qed.

Lemma fold_app {R : Type} (line : R -> string) (rows : list R) (answer : string) :
  fold_left (fun a row => a ++ line row) rows answer
  = answer ++ fold_left (fun a row => a ++ line row) rows "".
Proof.
  revert answer. induction rows as [|r rows IH]; intros answer; simpl.
  - now rewrite StrFacts.app_nil_r.
  - rewrite IH, (IH (line r)). now rewrite StrFacts.app_assoc.
Qed.

Section Answers.
Variable max_str_digits : nat.
Variable forecaster : ForecasterState.Forecaster.
Variable series_mean : list Z -> float64.
Variable str_float : float64 -> string.

Lemma materials_answer_truthy time_period text :
  materials_answer forecaster str_float time_period = Some text ->
  truthy (Some text) = true.
Proof.
  unfold materials_answer.
  destruct (ForecasterState.self_get_raw_materials forecaster time_period); [|discriminate].
  intros H. inversion H; subst; clear H.
  apply (truthy_fold
           (fun row : string * float64 =>
              "• " ++ Str.title (fst row) ++ ": " ++ str_float (snd row)
                   ++ " kg" ++ LF)).
  reflexivity.
Qed.

Lemma product_answer_truthy product time_period text :
  product_answer forecaster product time_period = Some text ->
  truthy (Some text) = true.
Proof.
  unfold product_answer.
  destruct (ForecasterState.self_calculate_inventory_needs _ _ _ _); [|discriminate].
  destruct (daily_average _ _); [|discriminate].
  intros H. inversion H; subst; clear H. reflexivity.
Qed.

Lemma summary_answer_truthy time_period text :
  summary_answer forecaster series_mean time_period = Some text ->
  truthy (Some text) = true.
Proof.
  unfold summary_answer.
  destruct (ForecasterState.get_weekly_summary _ _ _); [|discriminate].
  intros H. inversion H; subst; clear H.
  apply (truthy_fold
           (fun row =>
              "• " ++ ForecasterState.summary_product row ++ ": "
                   ++ str_int (ForecasterState.summary_total_production row)
                   ++ " units" ++ LF)).
  reflexivity.
Qed.

Lemma ml_answer_truthy routing text :
  ml_answer forecaster series_mean str_float routing = Some text ->
  truthy (Some text) = true.
Proof.
  unfold ml_answer.
  destruct (String.eqb _ _); [apply materials_answer_truthy|].
  destruct (product routing) as [[|c s]|];
    [apply summary_answer_truthy | apply product_answer_truthy
     | apply summary_answer_truthy].
Qed.

End Answers.

(** The two flags of a decision exclude each other. *)
Lemma route_one_flag max_str_digits question routing :
  route max_str_digits question = Ok routing ->
  use_llm routing = negb (use_ml routing).
Proof.
  unfold route. destruct (classify_query question) as [qt conf].
  destruct (extract_time_period max_str_digits question); try discriminate.
  intros H. inversion H; subst; clear H. now destruct qt.
Qed.

(** The product of a decision is a name of at least one character. *)
Lemma extract_product_truthy query p :
  extract_product query = Some p -> exists c s, p = String c s.
Proof.
  intros H. unfold extract_product in H.
  apply (first_product_canonical products (Str.lower query)) in H.
  - simpl in H. repeat (destruct H as [<-|H]; [now eexists _, _|]). destruct H.
  - intros x Hx. simpl in Hx.
    repeat (destruct Hx as [<-|Hx]; [vm_compute; tauto|]). destruct Hx.
Qed.

Lemma route_product max_str_digits question routing :
  route max_str_digits question = Ok routing ->
  product routing = extract_product question.
Proof.
  unfold route. destruct (classify_query question) as [qt conf].
  destruct (extract_time_period max_str_digits question); try discriminate.
  intros H. now inversion H.
Qed.

(** No horizon of 0 days has a daily average. *)
Lemma daily_average_zero total : daily_average total 0 = None.
Proof.
  unfold daily_average. cbn [Z.leb andb].
  change (of_Z 0) with (S754_zero false).
  assert (H : (int64_min <=? 0) && (0 <=? int64_max) = true) by reflexivity.
  rewrite H. unfold of_Z, binary_normalize.
  destruct total as [|n|n]; [reflexivity| |].
  - pose proof (binary_round_shape false n 0) as Sh.
    destruct (binary_round prec emax false n 0); cbn in Sh |- *; tauto.
  - pose proof (binary_round_shape true n 0) as Sh.
    destruct (binary_round prec emax true n 0); cbn in Sh |- *; tauto.
Qed.

Section Handler.
Variable max_str_digits : nat.
Variable forecaster : ForecasterState.Forecaster.
Variable client : option Client.
Variable series_mean : list Z -> float64.
Variable str_float : float64 -> string.

Local Abbreviation ask := (ask_question max_str_digits forecaster client
                                        series_mean str_float).

(** The handler on a question for the assistant. *)
Lemma ask_question_llm question routing :
  route max_str_digits question = Ok routing -> use_llm routing = true ->
  ask question
  = Some {| answer := if truthy (query client question None)
                      then format (query client question None)
                      else fallback;
            response_query_type := query_type_value (query_type routing);
            response_confidence := confidence routing;
            used_ml := false;
            used_llm := true |}.
Proof.
  intros R U. pose proof (route_one_flag _ _ _ R) as F.
  unfold ask_question. rewrite R, U. rewrite U in F.
  destruct (use_ml routing); [discriminate F|]. reflexivity.
Qed.

(** The handler on a question for the forecaster. *)
Lemma ask_question_ml question routing :
  route max_str_digits question = Ok routing -> use_ml routing = true ->
  ask question
  = match ml_answer forecaster series_mean str_float routing with
    | Some text =>
        Some {| answer := text;
                response_query_type := query_type_value (query_type routing);
                response_confidence := confidence routing;
                used_ml := true;
                used_llm := false |}
    | None => None
    end.
Proof.
  intros R U. pose proof (route_one_flag _ _ _ R) as F.
  unfold ask_question. rewrite R, U, F, U. cbn [negb].
  destruct (ml_answer forecaster series_mean str_float routing) as [text|] eqn:E;
    [|reflexivity].
  now rewrite (ml_answer_truthy _ _ _ _ _ E).
Qed.

End Handler.

Lemma value_raw_materials qt :
  String.eqb (query_type_value qt) "raw_materials" = true <-> qt = RAW_MATERIALS.
Proof. destruct qt; simpl; split; congruence. Qed.

(** The lines under the header of a production summary. *)
Definition summary_lines (summary : list ForecasterState.SummaryRow) : string :=
  fold_left
    (fun lines row =>
       lines ++ "• " ++ ForecasterState.summary_product row ++ ": "
             ++ str_int (ForecasterState.summary_total_production row)
             ++ " units" ++ LF)
    summary "".

(** Every row of a summary is the 7-day inventory of its product. *)
Lemma summaries_rows series_mean forecaster products summary :
  ForecasterState.summaries series_mean forecaster products = Some summary ->
  Forall2 (fun product row =>
             ForecasterState.summary_product row = product
             /\ exists inventory,
                 ForecasterState.self_calculate_inventory_needs forecaster product 7
                   lit_0_95 = Some inventory
                 /\ ForecasterState.summary_total_demand row
                    = total_demand inventory
                 /\ ForecasterState.summary_total_production row
                    = total_production inventory)
          products summary.
Proof.
  revert summary. induction products as [|product rest IH]; intros summary H.
  - inversion H; subst. constructor.
  - cbn [ForecasterState.summaries] in H.
    destruct (ForecasterState.self_calculate_inventory_needs forecaster product 7
                lit_0_95) as [inventory|] eqn:E; [|discriminate].
    destruct (ForecasterState.summaries series_mean forecaster rest)
      as [others|]; [|discriminate].
    inversion H; subst; clear H. constructor; [|now apply IH].
    cbn. split; [reflexivity|]. now exists inventory.
Qed.

End ApiFacts.

Import FreshCastLLM Api.

(** X15: one source per answer.  A question that [route] hands to the
    assistant is answered whatever the forecaster holds: the answer is the
    assistant's reply, the fallback sentence when the reply is empty or
    null, and the fixed notice when no API key is configured.  A question
    handed to the forecaster gets the forecaster's text alone, which is
    never empty; the assistant is not consulted.  So the branch that
    appends an "Additional Insight" to a forecast is never taken. *)
Theorem ask_question_one_source
        (max_str_digits : nat) (forecaster : ForecasterState.Forecaster)
        (client : option Client) (series_mean : list Z -> float64)
        (str_float : float64 -> string)
        (question : string) (routing : RoutingDecision) :
  route max_str_digits question = Ok routing ->
  (use_llm routing = true ->
   ask_question max_str_digits forecaster client series_mean str_float question
   = Some {| answer := if truthy (query client question None)
                       then format (query client question None)
                       else fallback;
             response_query_type := query_type_value (query_type routing);
             response_confidence := confidence routing;
             used_ml := false;
             used_llm := true |})
  /\ (use_llm routing = true -> client = None ->
      exists response,
        ask_question max_str_digits forecaster client series_mean str_float
                     question = Some response
        /\ answer response = not_configured)
  /\ (use_ml routing = true ->
      ask_question max_str_digits forecaster client series_mean str_float question
      = match ml_answer forecaster series_mean str_float routing with
        | Some text =>
            Some {| answer := text;
                    response_query_type := query_type_value (query_type routing);
                    response_confidence := confidence routing;
                    used_ml := true;
                    used_llm := false |}
        | None => None
        end)
  /\ (use_ml routing = true ->
      forall text,
        ml_answer forecaster series_mean str_float routing = Some text ->
        text <> "").
Proof.
  intros R. split; [now apply ApiFacts.ask_question_llm|]. split; [|split].
  - intros U ->. eexists.
    split; [now apply (ApiFacts.ask_question_llm _ _ _ _ _ _ _ R)|]. reflexivity.
  - now apply ApiFacts.ask_question_ml.
  - intros _ text E ->.
    pose proof (ApiFacts.ml_answer_truthy _ _ _ _ _ E) as T.
    discriminate T.
Qed.

Lemma ask_question_one_source_witness :
  exists response,
    ask_question 4300 ForecasterState.init None (fun _ => zero) (fun _ => "")
                 "Where can I buy cheap flour?" = Some response
    /\ answer response = not_configured.
Proof.
  apply (proj1 (proj2 (ask_question_one_source 4300 ForecasterState.init None
                         (fun _ => zero) (fun _ => "")
                         "Where can I buy cheap flour?" _ eq_refl)));
    reflexivity.
Defined.

(** X16: a horizon of 0 days.  When the question names a product, is not
    a raw-materials question and asks for 0 days, weeks or months, the
    daily average divides the total demand by 0; the quotient is an
    infinity or NaN, [int] raises on it, and the endpoint answers with an
    error whatever the forecaster holds. *)
Theorem zero_horizon_product_question_fails
        (max_str_digits : nat) (forecaster : ForecasterState.Forecaster)
        (client : option Client) (series_mean : list Z -> float64)
        (str_float : float64 -> string)
        (question : string) (routing : RoutingDecision) :
  route max_str_digits question = Ok routing ->
  use_ml routing = true ->
  query_type routing <> RAW_MATERIALS ->
  product routing <> None ->
  time_period routing = 0 ->
  (forall total, daily_average total 0 = None)
  /\ ask_question max_str_digits forecaster client series_mean str_float question
     = None.
Proof.
  intros R U Q P T. split; [apply ApiFacts.daily_average_zero|].
  rewrite (ApiFacts.ask_question_ml _ _ _ _ _ _ _ R U). unfold ml_answer.
  destruct (String.eqb (query_type_value (query_type routing)) "raw_materials") eqn:V;
    [now apply ApiFacts.value_raw_materials in V|].
  destruct (product routing) as [p|] eqn:E; [|now elim P].
  rewrite (ApiFacts.route_product _ _ _ R) in E.
  destruct (ApiFacts.extract_product_truthy _ _ E) as (c & s & ->).
  unfold product_answer. rewrite T.
  destruct (ForecasterState.self_calculate_inventory_needs _ _ _ _); [|reflexivity].
  now rewrite ApiFacts.daily_average_zero.
Qed.

(** A forecaster with one fitted model, which forecasts nothing for a
    horizon of 0 days and 12.0 for every day otherwise. *)
Definition croissant_model : ForecasterState.FittedModel :=
  fun days_ahead =>
    Some (map (fun d => {| ds := Z.of_nat d; yhat := of_Z 12;
                           yhat_lower := of_Z 9; yhat_upper := of_Z 15 |})
              (seq 1 (Z.to_nat days_ahead))).

Definition croissant_forecaster : ForecasterState.Forecaster :=
  {| ForecasterState.models := [("Croissant", croissant_model)];
     ForecasterState.trained := true |}.

Lemma zero_horizon_product_question_fails_witness :
  ask_question 4300 croissant_forecaster None (fun _ => zero) (fun _ => "")
               "How many croissants for 0 days?" = None.
Proof.
  refine (proj2 (zero_horizon_product_question_fails 4300 croissant_forecaster None
                   (fun _ => zero) (fun _ => "")
                   "How many croissants for 0 days?" _ eq_refl _ _ _ _));
    try reflexivity; discriminate.
Defined.



(** X18: the production summary does not follow the horizon.  For a
    question for the forecaster that is not a raw-materials question and
    names no product, the header quotes the horizon of the question, and
    the lines under it come, whatever that horizon is, from the 7-day
    inventory of each fitted model: one line per model, in the order of
    [self.models], with the 7-day total of the recommended production. *)
Theorem summary_reports_seven_days
        (max_str_digits : nat) (forecaster : ForecasterState.Forecaster)
        (client : option Client) (series_mean : list Z -> float64)
        (str_float : float64 -> string)
        (question : string) (routing : RoutingDecision)
        (response : QueryResponse) :
  route max_str_digits question = Ok routing ->
  use_ml routing = true ->
  query_type routing <> RAW_MATERIALS ->
  product routing = None ->
  ask_question max_str_digits forecaster client series_mean str_float question
  = Some response ->
  exists summary,
    Forall2 (fun product row =>
               ForecasterState.summary_product row = product
               /\ exists inventory,
                   ForecasterState.self_calculate_inventory_needs forecaster product 7
                     lit_0_95 = Some inventory
                   /\ ForecasterState.summary_total_demand row
                      = total_demand inventory
                   /\ ForecasterState.summary_total_production row
                      = total_production inventory)
            (Dict.keys (ForecasterState.models forecaster)) summary
    /\ answer response
       = "📊 Production Summary (Next " ++ str_int (time_period routing)
           ++ " days):" ++ LF ++ LF ++ ApiFacts.summary_lines summary.
Proof.
  intros R U Q P. rewrite (ApiFacts.ask_question_ml _ _ _ _ _ _ _ R U).
  unfold ml_answer.
  destruct (String.eqb _ _) eqn:V; [now apply ApiFacts.value_raw_materials in V|].
  rewrite P. unfold summary_answer, ForecasterState.get_weekly_summary.
  destruct (ForecasterState.summaries series_mean forecaster
              (Dict.keys (ForecasterState.models forecaster)))
    as [summary|] eqn:E; [|discriminate].
  intros H. inversion H; subst; clear H. cbn [answer].
  exists summary. split; [now apply (ApiFacts.summaries_rows series_mean)|].
  rewrite (ApiFacts.fold_app
             (fun row =>
                "• " ++ ForecasterState.summary_product row ++ ": "
                     ++ str_int (ForecasterState.summary_total_production row)
                     ++ " units" ++ LF)).
  unfold summary_header, ApiFacts.summary_lines.
  now rewrite !StrFacts.app_assoc.
Qed.

Lemma summary_reports_seven_days_witness :
  exists response summary,
    ask_question 4300 croissant_forecaster None (fun _ => zero) (fun _ => "")
                 "What is the sales forecast for 30 days?" = Some response
    /\ answer response
       = "📊 Production Summary (Next " ++ str_int 30 ++ " days):" ++ LF ++ LF
           ++ ApiFacts.summary_lines summary.
Proof.
  destruct (ask_question 4300 croissant_forecaster None (fun _ => zero)
              (fun _ => "") "What is the sales forecast for 30 days?")
    as [response|] eqn:E; [|vm_compute in E; discriminate E].
  destruct (summary_reports_seven_days 4300 croissant_forecaster None
              (fun _ => zero) (fun _ => "")
              "What is the sales forecast for 30 days?" _ response
              eq_refl eq_refl ltac:(discriminate) eq_refl E)
    as (summary & _ & A).
  exists response, summary. split; [reflexivity | exact A].
Defined.

(** X19: product names across the modules.  The table of the forecast
    endpoint and the normalisation of the router give the same identifier
    for each of the router's eight product names; every product that the
    router extracts from a question is left as it is by the endpoint's
    lookup and has a recipe; two path parameters that differ in letter
    case only and spell one of the eight names get the same forecast; and
    looking a name up twice is looking it up once. *)
Theorem product_names_agree :
  (forall p, In p products -> product_name p = normalize p)
  /\ (forall query p,
         extract_product query = Some p ->
         product_name p = p /\ Dict.get p RECIPES <> None)
  /\ (forall product product',
         Str.lower product = Str.lower product' ->
         In (Str.lower product) products ->
         product_name product = product_name product'
         /\ forall forecaster days_ahead,
             get_forecast forecaster product days_ahead
             = get_forecast forecaster product' days_ahead)
  /\ forall product, product_name (product_name product) = product_name product.
Proof.
  split; [|split; [|split]].
  - intros p Hp. simpl in Hp.
    repeat (destruct Hp as [<-|Hp]; [reflexivity|]). destruct Hp.
  - intros query p H. unfold extract_product in H.
    apply (first_product_canonical products (Str.lower query)) in H.
    + simpl in H.
      repeat (destruct H as [<-|H]; [split; [reflexivity | discriminate]|]).
      destruct H.
    + intros x Hx. simpl in Hx.
      repeat (destruct Hx as [<-|Hx]; [vm_compute; tauto|]). destruct Hx.
  - intros product product' E I.
    assert (N : product_name product = product_name product').
    { unfold product_name. rewrite <- E. simpl in I.
      repeat (destruct I as [<-|I]; [reflexivity|]). destruct I. }
    split; [exact N|]. intros forecaster days_ahead.
    unfold get_forecast. now rewrite N.
  - intros product. unfold product_name at 2 3.
    destruct (Dict.get (Str.lower product) product_map) as [name|] eqn:G.
    + apply FrameFacts.get_in in G. simpl in G.
      repeat (destruct G as [G|G]; [inversion G; reflexivity|]). destruct G.
    + unfold product_name. now rewrite G.
Qed.

Lemma product_names_agree_witness :
  get_forecast croissant_forecaster "CROISSANT" 3
  = get_forecast croissant_forecaster "croissant" 3.
Proof.
  apply (proj1 (proj2 (proj2 product_names_agree)) "CROISSANT" "croissant").
  - reflexivity.
  - simpl. tauto.
Defined.
